(** * hub: the sync engine and the gossip message codec

    A shallow embedding of [src/network/sync/syncEngine.ts] (class
    [SyncEngine]) and of the gossip codec ([encodeMessage] and
    [decodeMessage]).

    The sync engine is asynchronous TypeScript that talks to three
    collaborators whose code is not part of the engine: the peer behind an
    [RPCClient], the storage [Engine] and the [MerkleTrie].  They are
    modelled as interfaces (records of operations) acting on an abstract
    [World]; every operation may return, throw (a rejected promise) or never
    settle.  The engine's methods become computations in a small
    state-and-exception monad that also records the sequence of calls made. *)

From Stdlib Require Import ZArith List String Bool Lia.
From Stdlib Require Import DecimalString DecimalZ DecimalPos.
Import ListNotations.

Open Scope Z_scope.

(** ** Results ([neverthrow]) *)

Inductive Result (A E : Type) : Type :=
| Ok (value : A)
| Err (error : E).
Arguments Ok {A E} value.
Arguments Err {A E} error.

Definition isErr {A E} (r : Result A E) : bool :=
  match r with Ok _ => false | Err _ => true end.

Definition isOk {A E} (r : Result A E) : bool :=
  match r with Ok _ => true | Err _ => false end.

Definition mapErr {A E F} (f : E -> F) (r : Result A E) : Result A F :=
  match r with Ok a => Ok a | Err e => Err (f e) end.

Definition andThen {A B E} (r : Result A E) (f : A -> Result B E) : Result B E :=
  match r with Ok a => f a | Err e => Err e end.

(** ** Hub errors ([~/utils/hubErrors])

    [new HubError(errCode, context)]: the context is a message or the
    error being wrapped, whose type [C] depends on where it comes from. *)

Definition HubErrorCode := string.

Inductive HubErrorContext (C : Type) : Type :=
| CtxMessage (text : string)
| CtxCause (cause : C).
Arguments CtxMessage {C} text.
Arguments CtxCause {C} cause.

Record HubError (C : Type) : Type := mkHubError {
  errCode : HubErrorCode;
  context : HubErrorContext C
}.
Arguments mkHubError {C} errCode context.
Arguments errCode {C} h.
Arguments context {C} h.

(** ** Outcomes of an awaited computation *)

Inductive Outcome (X A : Type) : Type :=
| Ret (a : A)          (* the promise resolves *)
| Throw (e : X)        (* the promise rejects, or the call throws *)
| Diverge.             (* the promise never settles *)
Arguments Ret {X A} a.
Arguments Throw {X A} e.
Arguments Diverge {X A}.

(** ** The types the engine is parametric in

    [~/types], [~/utils/hubErrors] and the storage engine's error type are
    declarations that the engine only uses; they are kept abstract. *)

Class HubTypes : Type := {
  World : Type;            (* storage, trie, peers and the clock *)
  Exn : Type;              (* JavaScript exception values *)
  Message : Type;
  IdRegistryEvent : Type;
  Fid : Type;
  EngineError : Type;      (* the error of a failed storage merge *)
  message_fid : Message -> Fid;          (* message.data.fid *)
  statusCode : EngineError -> Z;         (* error.statusCode *)
  Date_now : World -> Z * World;         (* Date.now(), in milliseconds *)
  RangeError : Exn;        (* thrown by a call with too many arguments *)
  max_arguments : N        (* the most arguments the engine passes to a call *)
}.

(** ** Constants *)

Definition SYNC_THRESHOLD_IN_SECONDS : Z := 10.
Definition HASHES_PER_FETCH : Z := 50.

(** ** Pure helpers of the engine *)

(** [Number.prototype.toString] on an integer. *)
Definition toString (n : Z) : string := NilZero.string_of_int (Z.to_int n).

(** The arithmetic of the [snapshotTimestamp] getter: [Math.floor] of a
    quotient of integers is [Z.div]. *)
Definition snapshotTimestamp_at (nowMs : Z) : Z :=
  let currentTimeInSeconds := nowMs / 1000 in
  currentTimeInSeconds / SYNC_THRESHOLD_IN_SECONDS * SYNC_THRESHOLD_IN_SECONDS.

(** [xs.every((value, index) => f value index)], from index [i] on. *)
Fixpoint every_from {A} (f : A -> nat -> bool) (i : nat) (xs : list A) : bool :=
  match xs with
  | [] => true
  | x :: rest => if f x i then every_from f (S i) rest else false
  end.

Definition every {A} (f : A -> nat -> bool) (xs : list A) : bool :=
  every_from f 0%nat xs.

(** [value === arr[index]] for strings: an index out of range reads
    [undefined], which no string equals. *)
Definition strict_eq_at (value : string) (arr : list string) (index : nat) : bool :=
  match nth_error arr index with
  | Some other => String.eqb value other
  | None => false
  end.

Definition excludedHashesMatch (ours theirs : list string) : bool :=
  Nat.eqb (List.length ours) (List.length theirs)
  && every (fun value index => strict_eq_at value theirs index) ours.

(** ** Trie metadata *)

#[warnings="-register-all"]
Inductive NodeMetadata : Type :=
| mkNodeMetadata (prefix : string) (numMessages : Z) (hash : string)
                 (children : option (list (string * NodeMetadata))).

Definition prefix (n : NodeMetadata) : string :=
  match n with mkNodeMetadata p _ _ _ => p end.
Definition numMessages (n : NodeMetadata) : Z :=
  match n with mkNodeMetadata _ k _ _ => k end.
Definition hash (n : NodeMetadata) : string :=
  match n with mkNodeMetadata _ _ h _ => h end.
Definition children (n : NodeMetadata) : option (list (string * NodeMetadata)) :=
  match n with mkNodeMetadata _ _ _ c => c end.

Record TrieSnapshot : Type := mkTrieSnapshot {
  snap_prefix : string;
  snap_numMessages : Z;
  excludedHashes : list string
}.

(** [Map.prototype.get]: the entry stored under the key, if any. *)
Fixpoint Map_get {V} (m : list (string * V)) (key : string) : option V :=
  match m with
  | [] => None
  | (k, v) :: rest => if String.eqb k key then Some v else Map_get rest key
  end.

(** [ourNode?.children?.get(c)?.hash] *)
Definition our_child_hash (ourNode : option NodeMetadata) (c : string) : option string :=
  match ourNode with
  | None => None
  | Some n =>
      match children n with
      | None => None
      | Some m =>
          match Map_get m c with
          | None => None
          | Some child => Some (hash child)
          end
      end
  end.

(** [a !== b] where [a] may be [undefined] and [b] is a string. *)
Definition strict_neq (a : option string) (b : string) : bool :=
  match a with
  | None => true
  | Some x => negb (String.eqb x b)
  end.

(** ** Interfaces of the collaborators *)

Section Interfaces.
Context `{HubTypes}.

Definition HubResult (A : Type) : Type := Result A (HubError EngineError).

(** An operation of a collaborator: it acts on the world and returns,
    throws or never settles. *)
Definition Op (A : Type) : Type := World -> Outcome Exn A * World.

Record RPCClient : Type := {
  getSyncMetadataByPrefix : string -> Op (HubResult NodeMetadata);
  getSyncIdsByPrefix : string -> Op (HubResult (list string));
  getMessagesByHashes : list string -> Op (HubResult (list Message));
  getCustodyEventByUser : Fid -> Op (HubResult IdRegistryEvent);
  getAllSignerMessagesByUser : Fid -> Op (HubResult (list Message))
}.

Record Engine : Type := {
  mergeMessage : Message -> string -> Op (Result unit EngineError);
  mergeIdRegistryEvent : IdRegistryEvent -> string -> Op (Result unit EngineError);
  (* [Promise.all(engine.mergeMessages(messages, source))] *)
  mergeMessages : list Message -> string -> Op (list (Result unit EngineError))
}.

Record MerkleTrie : Type := {
  getTrieNodeMetadata : string -> Op (option NodeMetadata);
  getSnapshot : string -> Op TrieSnapshot;
  getDivergencePrefix : string -> list string -> Op string
}.

(** The read-only fields of a [SyncEngine] object. *)
Record SyncEngine : Type := mkSyncEngine {
  _trie : MerkleTrie;
  engine : Engine
}.

(** ** What the engine does, as seen from outside *)

Inductive Level : Type := Debug | Info | Warn.

Inductive Event : Type :=
| DateNow
| TrieGetTrieNodeMetadata (prefix : string)
| TrieGetSnapshot (prefix : string)
| TrieGetDivergencePrefix (prefix : string) (excludedHashes : list string)
| RpcGetSyncMetadataByPrefix (prefix : string)
| RpcGetSyncIdsByPrefix (prefix : string)
| RpcGetMessagesByHashes (hashes : list string)
| RpcGetCustodyEventByUser (fid : Fid)
| RpcGetAllSignerMessagesByUser (fid : Fid)
| EngineMergeMessage (message : Message) (source : string)
| EngineMergeIdRegistryEvent (event : IdRegistryEvent) (source : string)
| EngineMergeMessages (messages : list Message) (source : string)
| Log (level : Level) (text : string) (data : list (string * Z)).

Definition is_rpc (e : Event) : bool :=
  match e with
  | RpcGetSyncMetadataByPrefix _ | RpcGetSyncIdsByPrefix _
  | RpcGetMessagesByHashes _ | RpcGetCustodyEventByUser _
  | RpcGetAllSignerMessagesByUser _ => true
  | _ => false
  end.

(** The mutable state: the private flag [_isSyncing], the world, and
    the history of events, each stamped with the value [_isSyncing] had
    when it happened. *)
Record State : Type := mkState {
  _isSyncing : bool;
  world : World;
  trace : list (bool * Event)
}.

(** ** The monad of engine methods *)

Definition M (A : Type) : Type := State -> Outcome Exn A * State.

Definition ret {A} (a : A) : M A := fun s => (Ret a, s).

Definition bind {A B} (m : M A) (k : A -> M B) : M B :=
  fun s =>
    match m s with
    | (Ret a, s') => k a s'
    | (Throw e, s') => (Throw e, s')
    | (Diverge, s') => (Diverge, s')
    end.

Definition diverge {A} : M A := fun s => (Diverge, s).

Definition throw {A} (e : Exn) : M A := fun s => (Throw e, s).

(** [arr.push(...items)]: the items are the arguments of one call, which
    the engine refuses with a [RangeError] when they are more than it can
    pass. *)
Definition push_spread {A} (arr items : list A) : M (list A) :=
  if N.leb (N.of_nat (List.length items)) max_arguments
  then ret (arr ++ items)
  else throw RangeError.

Definition emit (e : Event) : M unit :=
  fun s => (Ret tt, mkState (_isSyncing s) (world s) (trace s ++ [(_isSyncing s, e)])).

(** A call to a collaborator: recorded, then run on the world. *)
Definition call {A} (e : Event) (op : Op A) : M A :=
  fun s =>
    let (o, w) := op (world s) in
    (o, mkState (_isSyncing s) w (trace s ++ [(_isSyncing s, e)])).

Definition log (level : Level) (text : string) (data : list (string * Z)) : M unit :=
  emit (Log level text data).

Definition get_isSyncing : M bool := fun s => (Ret (_isSyncing s), s).

Definition set_isSyncing (b : bool) : M unit :=
  fun s => (Ret tt, mkState b (world s) (trace s)).

(** [try { body } catch (e) { handler e } finally { final }] for a body
    whose value is discarded. *)
Definition try_catch_finally (body : M unit) (handler : Exn -> M unit)
           (final : M unit) : M unit :=
  fun s =>
    match body s with
    | (Ret _, s1) => final s1
    | (Throw e, s1) =>
        match handler e s1 with
        | (Ret _, s2) => final s2
        | (Throw e', s2) =>
            match final s2 with
            | (Ret _, s3) => (Throw e', s3)
            | other => other
            end
        | (Diverge, s2) => (Diverge, s2)
        end
    | (Diverge, s1) => (Diverge, s1)
    end.

End Interfaces.

Declare Scope engine_scope.
Delimit Scope engine_scope with engine.
Notation "x <- m ;; k" := (bind m (fun x => k))
  (at level 61, m at next level, right associativity) : engine_scope.
Notation "m ;; k" := (bind m (fun _ => k))
  (at level 61, right associativity) : engine_scope.

Open Scope string_scope.
Open Scope list_scope.
Open Scope Z_scope.
Open Scope engine_scope.

(** ** The methods of [SyncEngine] *)

Section Methods.
Context `{HubTypes}.
Variable this : SyncEngine.

(** [get snapshotTimestamp()] *)
Definition snapshotTimestamp : M Z :=
  now <- call DateNow (fun w => let (t, w') := Date_now w in (Ret t, w'));;
  ret (snapshotTimestamp_at now).

(** [get snapshot()] *)
Definition snapshot : M TrieSnapshot :=
  ts <- snapshotTimestamp;;
  let prefix := toString (ts / 10) in
  call (TrieGetSnapshot prefix) (getSnapshot (_trie this) prefix).

(** [shouldSync(excludedHashes)] *)
Definition shouldSync (theirs : list string) : M bool :=
  syncing <- get_isSyncing;;
  if syncing then
    log Debug "shouldSync: already syncing" [];;
    ret false
  else
    ourSnapshot <- snapshot;;
    let matches := excludedHashesMatch (excludedHashes ourSnapshot) theirs in
    log Debug ("shouldSync: excluded hashes check: " ++ String.concat "," theirs)%string [];;
    ret (negb matches).

(** The loop over [theirNode.children.entries()] in
    [fetchMissingHashesByNode]; [recur] is [fetchMissingHashesByPrefix]. *)
Fixpoint fetch_children (recur : string -> M (list string))
         (ourNode : option NodeMetadata)
         (entries : list (string * NodeMetadata))
         (missingHashes : list string) : M (list string) :=
  match entries with
  | [] => ret missingHashes
  | (theirChildChar, theirChild) :: rest =>
      if strict_neq (our_child_hash ourNode theirChildChar) (hash theirChild) then
        more <- recur (prefix theirChild);;
        missingHashes <- push_spread missingHashes more;;
        fetch_children recur ourNode rest missingHashes
      else fetch_children recur ourNode rest missingHashes
  end.

(** The body of [fetchMissingHashesByNode], with its recursive call to
    [fetchMissingHashesByPrefix] as a parameter. *)
Definition fetchMissingHashesByNode_body (recur : string -> M (list string))
           (theirNode : NodeMetadata) (ourNode : option NodeMetadata)
           (rpcClient : RPCClient) : M (list string) :=
  let missingHashes : list string := [] in
  if numMessages theirNode <=? HASHES_PER_FETCH then
    result <- call (RpcGetSyncIdsByPrefix (prefix theirNode))
                   (getSyncIdsByPrefix rpcClient (prefix theirNode));;
    match result with
    | Ok ids => push_spread missingHashes ids
    | Err _ =>
        log Warn ("Error fetching ids for prefix " ++ prefix theirNode)%string [];;
        ret missingHashes
    end
  else
    match children theirNode with
    | Some entries => fetch_children recur ourNode entries missingHashes
    | None => ret missingHashes
    end.

(** [fetchMissingHashesByPrefix(prefix, rpcClient)].  The recursion follows
    the peer's answers, which nothing bounds: [fuel] bounds its depth, and
    running out of it is [Diverge]. *)
Fixpoint fetchMissingHashesByPrefix (fuel : nat) (prefix : string)
         (rpcClient : RPCClient) : M (list string) :=
  match fuel with
  | O => diverge
  | S fuel' =>
      ourNode <- call (TrieGetTrieNodeMetadata prefix)
                      (getTrieNodeMetadata (_trie this) prefix);;
      theirNodeResult <- call (RpcGetSyncMetadataByPrefix prefix)
                              (getSyncMetadataByPrefix rpcClient prefix);;
      let missingHashes : list string := [] in
      match theirNodeResult with
      | Ok theirNode =>
          more <- fetchMissingHashesByNode_body
                    (fun p => fetchMissingHashesByPrefix fuel' p rpcClient)
                    theirNode ourNode rpcClient;;
          push_spread missingHashes more
      | Err _ =>
          log Warn ("Error fetching metadata for prefix " ++ prefix)%string [];;
          ret missingHashes
      end
  end.

(** [fetchMissingHashesByNode(theirNode, ourNode, rpcClient)] *)
Definition fetchMissingHashesByNode (fuel : nat) (theirNode : NodeMetadata)
           (ourNode : option NodeMetadata) (rpcClient : RPCClient) : M (list string) :=
  fetchMissingHashesByNode_body
    (fun p => fetchMissingHashesByPrefix fuel p rpcClient)
    theirNode ourNode rpcClient.

Definition network_failure (text : string) : HubError EngineError :=
  mkHubError "unavailable.network_failure" (CtxMessage text).

Definition storage_failure (ctx : HubErrorContext EngineError) : HubError EngineError :=
  mkHubError "unavailable.storage_failure" ctx.

(** [syncUserAndRetryMessage(message, rpcClient)] *)
Definition syncUserAndRetryMessage (message : Message) (rpcClient : RPCClient)
  : M (HubResult unit) :=
  let fid := message_fid message in
  custodyEventResult <- call (RpcGetCustodyEventByUser fid)
                             (getCustodyEventByUser rpcClient fid);;
  match custodyEventResult with
  | Err _ => ret (Err (network_failure "Failed to fetch custody event"))
  | Ok custodyEvent =>
      call (EngineMergeIdRegistryEvent custodyEvent "SyncEngine")
           (mergeIdRegistryEvent (engine this) custodyEvent "SyncEngine");;
      signerMessagesResult <- call (RpcGetAllSignerMessagesByUser fid)
                                   (getAllSignerMessagesByUser rpcClient fid);;
      match signerMessagesResult with
      | Err _ => ret (Err (network_failure "Failed to fetch signer messages"))
      | Ok signerMessages =>
          results <- call (EngineMergeMessages signerMessages "SyncEngine")
                          (mergeMessages (engine this) signerMessages "SyncEngine");;
          if forallb isErr results then
            ret (Err (storage_failure (CtxMessage "Failed to merge signer messages")))
          else
            retried <- call (EngineMergeMessage message "SyncEngine")
                            (mergeMessage (engine this) message "SyncEngine");;
            ret (mapErr (fun e => storage_failure (CtxCause e)) retried)
      end
  end.

(** An entry of [mergeResults]: the result of the merge, or of the
    recovery that replaced it. *)
Definition MergeResult : Type := (Result unit EngineError + HubResult unit)%type.

Definition mergeResult_isOk (r : MergeResult) : bool :=
  match r with inl r' => isOk r' | inr r' => isOk r' end.

(** [result.isErr() && result.error.statusCode === 412] *)
Definition is_unknown_user (result : Result unit EngineError) : bool :=
  match result with
  | Ok _ => false
  | Err error => statusCode error =? 412
  end.

(** The loop [for (const msg of msgs)] of [fetchAndMergeMessages]. *)
Fixpoint merge_loop (rpcClient : RPCClient) (msgs : list Message)
         (mergeResults : list MergeResult) : M (list MergeResult) :=
  match msgs with
  | [] => ret mergeResults
  | msg :: rest =>
      result <- call (EngineMergeMessage msg "SyncEngine")
                     (mergeMessage (engine this) msg "SyncEngine");;
      if is_unknown_user result then
        log Warn "Unknown user, fetching custody event" [];;
        result' <- syncUserAndRetryMessage msg rpcClient;;
        merge_loop rpcClient rest (mergeResults ++ [inr result'])%list
      else merge_loop rpcClient rest (mergeResults ++ [inl result])%list
  end.

(** [fetchAndMergeMessages(hashes, rpcClient)] *)
Definition fetchAndMergeMessages (hashes : list string) (rpcClient : RPCClient)
  : M bool :=
  let result := true in
  if Nat.eqb (List.length hashes) 0 then ret false
  else
    let request := map (fun hash => "0x" ++ hash)%string hashes in
    messages <- call (RpcGetMessagesByHashes request)
                     (getMessagesByHashes rpcClient request);;
    match messages with
    | Ok msgs =>
        mergeResults <- merge_loop rpcClient msgs [];;
        log Info "Merged messages"
            [("messages"%string, Z.of_nat (List.length mergeResults));
             ("success"%string,
              Z.of_nat (List.length (filter mergeResult_isOk mergeResults)))];;
        ret result
    | Err _ =>
        log Warn "Error fetching messages for sync" [];;
        ret false
    end.

(** The [try] block of [performSync]. *)
Definition performSync_pipeline (fuel : nat) (theirs : list string)
           (rpcClient : RPCClient) : M unit :=
  set_isSyncing true;;
  ourSnapshot <- snapshot;;
  divergencePrefix <-
    call (TrieGetDivergencePrefix (snap_prefix ourSnapshot) theirs)
         (getDivergencePrefix (_trie this) (snap_prefix ourSnapshot) theirs);;
  log Info "Divergence prefix" [];;
  missingIds <- fetchMissingHashesByPrefix fuel divergencePrefix rpcClient;;
  log Info "Fetched missing hashes"
      [("missingCount"%string, Z.of_nat (List.length missingIds))];;
  fetchAndMergeMessages missingIds rpcClient;;
  log Info "Sync complete" [].

(** [performSync(excludedHashes, rpcClient)] *)
Definition performSync (fuel : nat) (theirs : list string) (rpcClient : RPCClient)
  : M unit :=
  try_catch_finally
    (performSync_pipeline fuel theirs rpcClient)
    (fun e => log Warn "Error performing sync" [])
    (set_isSyncing false).

End Methods.

(** ** The gossip codec ([encodeMessage], [decodeMessage]) *)

(** What the codec takes from the JavaScript platform. *)
Class JsPlatform : Type := {
  Number : Type;                               (* IEEE doubles *)
  number_truthy : Number -> bool;              (* neither 0 nor NaN *)
  Error : Type;                                (* thrown values *)
  TextEncoder_encode : string -> list Byte.byte;
  TextDecoder_decode : list Byte.byte -> string
}.

Section GossipValues.
Context `{JsPlatform}.

(** The values [JSON.parse] produces and [JSON.stringify] takes. *)
#[warnings="-register-all"]
Inductive JsValue : Type :=
| JsUndefined
| JsNull
| JsBool (b : bool)
| JsNumber (n : Number)
| JsString (s : string)
| JsArray (items : list JsValue)
| JsObject (fields : list (string * JsValue)).

(** [!v] is [negb (truthy v)]. *)
Definition truthy (v : JsValue) : bool :=
  match v with
  | JsUndefined | JsNull => false
  | JsBool b => b
  | JsNumber n => number_truthy n
  | JsString s => negb (String.eqb s "")
  | JsArray _ | JsObject _ => true
  end.

Definition is_object (v : JsValue) : bool :=
  match v with JsObject _ => true | _ => false end.

(** The helpers the codec imports: the type guard of [~/types/typeguards]
    and the JSON wrappers of [~/utils/safe].  The guard narrows to
    [GossipMessage], the object type [{ content; topics }] that the codec's
    file declares, so it accepts objects only. *)
Class GossipHelpers : Type := {
  isGossipMessage : JsValue -> bool;
  isGossipMessage_object : forall v, isGossipMessage v = true -> is_object v = true;
  safeJsonStringify : JsValue -> Result string (HubError Error);
  safeJsonParse : string -> Result JsValue (HubError Error)
}.

Context `{GossipHelpers}.

Definition invalid_gossip_message : HubError Error :=
  mkHubError "bad_request.parse_failure" (CtxMessage "invalid gossip message").

Definition encodeMessage (message : JsValue) : Result (list Byte.byte) (HubError Error) :=
  if negb (isGossipMessage message) then Err invalid_gossip_message
  else
    let jsonResult := safeJsonStringify message in
    match jsonResult with
    | Err error => Err error
    | Ok value => Ok (TextEncoder_encode value)
    end.

Definition decodeMessage (data : list Byte.byte) : Result JsValue (HubError Error) :=
  let json := TextDecoder_decode data in
  andThen (safeJsonParse json)
          (fun message =>
             if negb (truthy message) || negb (isGossipMessage message)
             then Err invalid_gossip_message
             else Ok message).

End GossipValues.

(** Modelled from the spec: the error kinds of its section on error
    handling; the error codes themselves are declared in
    [~/utils/hubErrors], which the sources only import.  An error code is a
    dotted path whose first segment is its kind, and the specification
    writes the kind [bad_request] as [bad_input]. *)
Inductive ErrorKind : Type :=
| bad_input
| not_found
| unavailable
| unknown.

Definition error_family (code : HubErrorCode) : string :=
  match index 0 "." code with
  | Some n => substring 0 n code
  | None => code
  end.

Definition error_kind (code : HubErrorCode) : ErrorKind :=
  let family := error_family code in
  if String.eqb family "bad_request" then bad_input
  else if String.eqb family "not_found" then not_found
  else if String.eqb family "unavailable" then unavailable
  else unknown.


(** ** Filling the trie: [initialize], [addMessage], [removeMessage]

    The writes of the trie and the iteration over the stored messages
    belong to [MerkleTrie], [SyncId] and the storage engine.
    [forEachMessage] hands its callback the stored messages one after the
    other; it is represented by the list of those messages, in the order
    it hands them out. *)

Section Replay.
Context `{HubTypes}.

Record TrieWriter : Type := {
  SyncId : Type;
  newSyncId : Message -> Outcome Exn SyncId;     (* [new SyncId(message)] *)
  insert : SyncId -> Op bool;
  delete : SyncId -> Op bool
}.

Record MessageStore : Type := {
  forEachMessage : Op (list Message)
}.

(** A call that leaves no event. *)
Definition perform {A} (op : Op A) : M A :=
  fun s =>
    let (o, w) := op (world s) in
    (o, mkState (_isSyncing s) w (trace s)).

Definition evaluate {A} (o : Outcome Exn A) : M A := fun s => (o, s).

Variable writer : TrieWriter.
Variable store : MessageStore.

(** [addMessage(message)] *)
Definition addMessage (message : Message) : M unit :=
  id <- evaluate (newSyncId writer message);;
  perform (insert writer id);;
  ret tt.

(** [removeMessage(message)] *)
Definition removeMessage (message : Message) : M unit :=
  id <- evaluate (newSyncId writer message);;
  perform (delete writer id);;
  ret tt.

(** The callback of [initialize], run on the messages in turn;
    [processedMessages] is the counter it keeps. *)
Fixpoint initialize_each (messages : list Message) (processedMessages : Z)
  : M Z :=
  match messages with
  | [] => ret processedMessages
  | message :: rest =>
      addMessage message;;
      let processedMessages := processedMessages + 1 in
      (if processedMessages mod 10000 =? 0
       then log Info "Initializing sync engine"
                [("processedMessages"%string, processedMessages)]
       else ret tt);;
      initialize_each rest processedMessages
  end.

(** [initialize()] *)
Definition initialize : M unit :=
  let processedMessages := 0 in
  messages <- perform (forEachMessage store);;
  processedMessages <- initialize_each messages processedMessages;;
  log Info "Sync engine initialized"
      [("processedMessages"%string, processedMessages)].

End Replay.

(** ** The sync RPC server ([syncImplementation]) *)

Class ServerTypes : Type := {
  ServerWorld : Type;                    (* the storage behind the engine *)
  ServerExn : Type;
  MessageModel : Type;                   (* the flatbuffers message models *)
  MessagesResponse : Type;
  ServiceError : Type;
  toMessagesResponse : list MessageModel -> MessagesResponse;
  toServiceError : HubError ServerExn -> ServiceError
}.

Section Server.
Context `{ServerTypes}.

Definition Query : Type :=
  list Byte.byte -> ServerWorld
  -> Outcome ServerExn (Result (list MessageModel) (HubError ServerExn))
     * ServerWorld.

(** The methods of the storage engine the server calls. *)
Record FlatbuffersEngine : Type := {
  engine_getAllCastMessagesByFid : Query;
  engine_getAllAmpMessagesByFid : Query;
  engine_getAllReactionMessagesByFid : Query;
  engine_getAllVerificationMessagesByFid : Query;
  engine_getAllSignerMessagesByFid : Query;
  engine_getUserDataByFid : Query
}.

(** One invocation [callback(error, value)] of the gRPC callback;
    [callback(error)] leaves the value [undefined]. *)
Inductive CallbackCall : Type :=
| Callback (error : option ServiceError) (value : option MessagesResponse).

Record ServerState : Type := mkServerState {
  server_world : ServerWorld;
  callbacks : list CallbackCall
}.

(** A handler, given [call.request.fidArray()], which may be [null]. *)
Definition Handler : Type :=
  option (list Byte.byte) -> ServerState -> Outcome ServerExn unit * ServerState.

(** [a ?? b] *)
Definition nullish {A} (a : option A) (b : A) : A :=
  match a with Some x => x | None => b end.

Definition callback (error : option ServiceError) (value : option MessagesResponse)
           (s : ServerState) : Outcome ServerExn unit * ServerState :=
  (Ret tt, mkServerState (server_world s) (callbacks s ++ [Callback error value])).

(** [const result = await query(fid); result.match(ok, err)] with the two
    continuations every handler passes. *)
Definition await_and_match (query : Query) (fid : list Byte.byte)
  : ServerState -> Outcome ServerExn unit * ServerState :=
  fun s =>
    match query fid (server_world s) with
    | (Ret result, w) =>
        let s' := mkServerState w (callbacks s) in
        match result with
        | Ok messages => callback None (Some (toMessagesResponse messages)) s'
        | Err err => callback (Some (toServiceError err)) None s'
        end
    | (Throw e, w) => (Throw e, mkServerState w (callbacks s))
    | (Diverge, w) => (Diverge, mkServerState w (callbacks s))
    end.

Record SyncImplementation : Type := {
  getAllCastMessagesByFid : Handler;
  getAllAmpMessagesByFid : Handler;
  getAllReactionMessagesByFid : Handler;
  getAllVerificationMessagesByFid : Handler;
  getAllSignerMessagesByFid : Handler;
  getAllUserDataMessagesByFid : Handler
}.

Definition syncImplementation (engine : FlatbuffersEngine) : SyncImplementation := {|
  getAllCastMessagesByFid := fun fidArray =>
    await_and_match (engine_getAllCastMessagesByFid engine) (nullish fidArray []);
  getAllAmpMessagesByFid := fun fidArray =>
    await_and_match (engine_getAllAmpMessagesByFid engine) (nullish fidArray []);
  getAllReactionMessagesByFid := fun fidArray =>
    await_and_match (engine_getAllReactionMessagesByFid engine) (nullish fidArray []);
  getAllVerificationMessagesByFid := fun fidArray =>
    await_and_match (engine_getAllVerificationMessagesByFid engine) (nullish fidArray []);
  getAllSignerMessagesByFid := fun fidArray =>
    await_and_match (engine_getAllSignerMessagesByFid engine) (nullish fidArray []);
  getAllUserDataMessagesByFid := fun fidArray =>
    await_and_match (engine_getUserDataByFid engine) (nullish fidArray [])
|}.

End Server.
(** ** Vocabulary of the properties *)

Section Vocabulary.
Context `{HubTypes}.
Variable this : SyncEngine.

(** The state after reading the clock. *)
Definition after_clock (s : State) : State :=
  mkState (_isSyncing s) (snd (Date_now (world s)))
          (trace s ++ [(_isSyncing s, DateNow)]).

(** The requests sent to peers, in order. *)
Definition rpc_calls (t : list (bool * Event)) : list Event :=
  filter is_rpc (map snd t).

(** [s'] is [s] after some events during which [_isSyncing] kept its
    value. *)
Definition extends (s s' : State) : Prop :=
  _isSyncing s' = _isSyncing s
  /\ exists evs, trace s' = trace s ++ map (pair (_isSyncing s)) evs.

(** A computation that never writes [_isSyncing]. *)
Definition framed {A} (m : M A) : Prop := forall s, extends s (snd (m s)).

(** An operation that always returns: it neither throws nor hangs. *)
Definition settles {A} (op : Op A) : Prop :=
  forall w, exists a w', op w = (Ret a, w').

(** [m'] does what [m] does wherever [m] finishes. *)
Definition finishes_as {A} (m m' : M A) : Prop :=
  forall s, fst (m s) <> Diverge -> m' s = m s.

(** One computation per element, in list order. *)
Fixpoint mapM {A B} (f : A -> M B) (xs : list A) : M (list B) :=
  match xs with
  | [] => ret []
  | x :: rest =>
      y <- f x;;
      ys <- mapM f rest;;
      ret (y :: ys)
  end.

(** *** [fetchMissingHashesByNode], as specified *)

Definition our_child (ourNode : option NodeMetadata) (byte : string)
  : option NodeMetadata :=
  match ourNode with
  | Some n => match children n with Some m => Map_get m byte | None => None end
  | None => None
  end.

(** The local node has no child at that byte, or its hash differs. *)
Definition missing_or_differs_spec (ourNode : option NodeMetadata)
           (entry : string * NodeMetadata) : bool :=
  match our_child ourNode (fst entry) with
  | None => true
  | Some ours => negb (String.eqb (hash ours) (hash (snd entry)))
  end.

Definition children_to_fetch_spec (ourNode : option NodeMetadata)
           (theirNode : NodeMetadata) : list (string * NodeMetadata) :=
  match children theirNode with
  | Some entries => filter (missing_or_differs_spec ourNode) entries
  | None => []
  end.

(** *** [fetchAndMergeMessages], as specified *)

(** Merge one message; recover the user when storage answers 412. *)
Definition merge_one_spec (rpcClient : RPCClient) (msg : Message) : M MergeResult :=
  result <- call (EngineMergeMessage msg "SyncEngine")
                 (mergeMessage (engine this) msg "SyncEngine");;
  match result with
  | Err error =>
      if statusCode error =? 412 then
        log Warn "Unknown user, fetching custody event" [];;
        recovered <- syncUserAndRetryMessage this msg rpcClient;;
        ret (inr recovered)
      else ret (inl result)
  | Ok _ => ret (inl result)
  end.

Definition fetchAndMergeMessages_spec (hashes : list string)
           (rpcClient : RPCClient) : M bool :=
  let request := map (String.append "0x") hashes in
  messages <- call (RpcGetMessagesByHashes request)
                   (getMessagesByHashes rpcClient request);;
  match messages with
  | Ok msgs =>
      results <- mapM (merge_one_spec rpcClient) msgs;;
      log Info "Merged messages"
          [("messages"%string, Z.of_nat (List.length msgs));
           ("success"%string,
            Z.of_nat (List.length (filter mergeResult_isOk results)))];;
      ret true
  | Err _ =>
      log Warn "Error fetching messages for sync" [];;
      ret false
  end.

(** *** [syncUserAndRetryMessage], as specified

    What the collaborators answer, step by step, and the result each
    course of events leads to. *)






(** The collaborators recovery talks to all answer. *)
Definition recovery_settles (rpcClient : RPCClient) : Prop :=
  (forall fid, settles (getCustodyEventByUser rpcClient fid))
  /\ (forall fid, settles (getAllSignerMessagesByUser rpcClient fid))
  /\ (forall ev source, settles (mergeIdRegistryEvent (engine this) ev source))
  /\ (forall msgs source, settles (mergeMessages (engine this) msgs source))
  /\ (forall msg source, settles (mergeMessage (engine this) msg source)).

End Vocabulary.

(** ** Vocabulary of the further properties *)

Section MoreVocabulary.
Context `{HubTypes}.

(** The calls made to the storage engine. *)
Definition is_storage (e : Event) : bool :=
  match e with
  | EngineMergeMessage _ _ | EngineMergeIdRegistryEvent _ _
  | EngineMergeMessages _ _ => true
  | _ => false
  end.

Definition storage_calls (t : list (bool * Event)) : list Event :=
  filter is_storage (map snd t).

(** Reading the clock, taking a snapshot of the local trie, logging. *)
Definition is_local_read (e : Event) : bool :=
  match e with
  | DateNow | TrieGetSnapshot _ | Log _ _ _ => true
  | _ => false
  end.

(** What walking the peer's trie may do: look up local metadata, ask the
    peer for metadata or for sync ids, log. *)
Definition is_walk_event (e : Event) : bool :=
  match e with
  | TrieGetTrieNodeMetadata _ | RpcGetSyncMetadataByPrefix _
  | RpcGetSyncIdsByPrefix _ | Log _ _ _ => true
  | _ => false
  end.

(** A computation that keeps [_isSyncing] and whose events all satisfy
    [P]. *)
Definition emits (P : Event -> bool) {A} (m : M A) : Prop :=
  forall s,
    _isSyncing (snd (m s)) = _isSyncing s
    /\ exists evs,
        trace (snd (m s)) = trace s ++ map (pair (_isSyncing s)) evs
        /\ Forall (fun e => P e = true) evs.

(** An outcome that is not a hang and, unless [may_throw], not a throw. *)
Definition outcome_ok {A} (may_throw : bool) (o : Outcome Exn A) : Prop :=
  match o with
  | Ret _ => True
  | Throw _ => may_throw = true
  | Diverge => False
  end.

Definition op_ok {A} (may_throw : bool) (op : Op A) : Prop :=
  forall w, outcome_ok may_throw (fst (op w)).

Definition finishes {A} (may_throw : bool) (m : M A) : Prop :=
  forall s, outcome_ok may_throw (fst (m s)).

(** An outcome that is not a hang and whose exception, if any, is among
    the [allowed] ones. *)
Definition outcome_within {A} (allowed : Exn -> Prop) (o : Outcome Exn A) : Prop :=
  match o with
  | Ret _ => True
  | Throw e => allowed e
  | Diverge => False
  end.

Definition op_within {A} (allowed : Exn -> Prop) (op : Op A) : Prop :=
  forall w, outcome_within allowed (fst (op w)).

Definition ends_within {A} (allowed : Exn -> Prop) (m : M A) : Prop :=
  forall s, outcome_within allowed (fst (m s)).

(** Every collaborator of a sync round answers its calls: none hangs, and
    unless [may_throw] none throws. *)
Definition collaborators_ok (may_throw : bool) (this : SyncEngine)
           (rpcClient : RPCClient) : Prop :=
  (forall p, op_ok may_throw (getSnapshot (_trie this) p))
  /\ (forall p hs, op_ok may_throw (getDivergencePrefix (_trie this) p hs))
  /\ (forall p, op_ok may_throw (getTrieNodeMetadata (_trie this) p))
  /\ (forall p, op_ok may_throw (getSyncMetadataByPrefix rpcClient p))
  /\ (forall p, op_ok may_throw (getSyncIdsByPrefix rpcClient p))
  /\ (forall hs, op_ok may_throw (getMessagesByHashes rpcClient hs))
  /\ (forall fid, op_ok may_throw (getCustodyEventByUser rpcClient fid))
  /\ (forall fid, op_ok may_throw (getAllSignerMessagesByUser rpcClient fid))
  /\ (forall msg src, op_ok may_throw (mergeMessage (engine this) msg src))
  /\ (forall ev src, op_ok may_throw (mergeIdRegistryEvent (engine this) ev src))
  /\ (forall msgs src, op_ok may_throw (mergeMessages (engine this) msgs src)).

(** The trie the peer describes is well founded: the children it reports
    for a node too large to fetch at once rank strictly below the node. *)
Definition peer_trie_descends (rpcClient : RPCClient) (rank : string -> nat)
  : Prop :=
  forall p w theirNode w' entries byte child,
    getSyncMetadataByPrefix rpcClient p w = (Ret (Ok theirNode), w') ->
    HASHES_PER_FETCH < numMessages theirNode ->
    children theirNode = Some entries ->
    In (byte, child) entries ->
    (rank (prefix child) < rank p)%nat.

End MoreVocabulary.

Section ReplayVocabulary.
Context `{HubTypes}.

(** The [k]-th progress report of [initialize]. *)
Definition progress_log (k : nat) : Event :=
  Log Info "Initializing sync engine"
      [("processedMessages"%string, 10000 * Z.of_nat k)].

(** Every message has a sync id and the trie takes every insert. *)
Definition writer_settles (writer : TrieWriter) : Prop :=
  (forall message, exists id, newSyncId writer message = Ret id)
  /\ (forall id, settles (insert writer id)).

End ReplayVocabulary.

Section ServerVocabulary.
Context `{ServerTypes}.

(** The six methods of the sync service, each with its handler and the
    engine query the handler relies on. *)
Inductive SyncMethod : Type :=
| CastMessages | AmpMessages | ReactionMessages
| VerificationMessages | SignerMessages | UserDataMessages.

Definition handler_of (impl : SyncImplementation) (method : SyncMethod) : Handler :=
  match method with
  | CastMessages => getAllCastMessagesByFid impl
  | AmpMessages => getAllAmpMessagesByFid impl
  | ReactionMessages => getAllReactionMessagesByFid impl
  | VerificationMessages => getAllVerificationMessagesByFid impl
  | SignerMessages => getAllSignerMessagesByFid impl
  | UserDataMessages => getAllUserDataMessagesByFid impl
  end.

Definition query_of (engine : FlatbuffersEngine) (method : SyncMethod) : Query :=
  match method with
  | CastMessages => engine_getAllCastMessagesByFid engine
  | AmpMessages => engine_getAllAmpMessagesByFid engine
  | ReactionMessages => engine_getAllReactionMessagesByFid engine
  | VerificationMessages => engine_getAllVerificationMessagesByFid engine
  | SignerMessages => engine_getAllSignerMessagesByFid engine
  | UserDataMessages => engine_getUserDataByFid engine
  end.

(** A reply carries an error or a value, not both and not neither. *)
Definition one_sided (c : CallbackCall) : bool :=
  match c with
  | Callback (Some _) None | Callback None (Some _) => true
  | _ => false
  end.

End ServerVocabulary.

(** ** Concrete collaborators

    A small world to run the engine in: storage knows a set of users,
    refuses the messages of unknown users with status 412, and learns a user
    from its custody event.  The peers follow the scenarios of the
    specification. *)

Module Scenario.

#[export] Instance types : HubTypes := {|
  World := list nat;                     (* the users storage knows *)
  Exn := string;
  Message := nat * string;               (* fid and hash *)
  IdRegistryEvent := nat;                (* the fid it registers *)
  Fid := nat;
  EngineError := Z;                      (* its status code *)
  message_fid := fst;
  statusCode := fun e => e;
  Date_now := fun w => (1700000123456, w);
  RangeError := "RangeError: Maximum call stack size exceeded";
  max_arguments := 65536
|}.

Definition known (fid : nat) (w : list nat) : bool := existsb (Nat.eqb fid) w.

Definition merge_one (w : list nat) (m : nat * string) : Result unit Z :=
  if known (fst m) w then Ok tt else Err 412.

Definition storage : Engine := {|
  mergeMessage := fun m _ w => (Ret (merge_one w m), w);
  mergeIdRegistryEvent := fun ev _ w => (Ret (Ok tt), ev :: w);
  mergeMessages := fun ms _ w => (Ret (map (merge_one w) ms), w)
|}.

(** Storage that refuses everything, messages as those of unknown users. *)
Definition broken_storage : Engine := {|
  mergeMessage := fun _ _ w => (Ret (Err 412), w);
  mergeIdRegistryEvent := fun _ _ w => (Ret (Err 500), w);
  mergeMessages := fun ms _ w => (Ret (map (fun _ => Err 500) ms), w)
|}.

Definition local_node : NodeMetadata :=
  mkNodeMetadata "00000010" 60 "hash_ours"
    (Some [("0", mkNodeMetadata "000000100" 60 "hash_X" None)]).

Definition trie : MerkleTrie := {|
  getTrieNodeMetadata := fun p w =>
    (Ret (if String.eqb p "00000010" then Some local_node else None), w);
  getSnapshot := fun p w => (Ret (mkTrieSnapshot p 60 ["e0"; "e1"]), w);
  getDivergencePrefix := fun _ _ w => (Ret "00000010", w)
|}.

Definition hub : SyncEngine := mkSyncEngine trie storage.
Definition broken_hub : SyncEngine := mkSyncEngine trie broken_storage.

Definition unavailable_peer : HubError Z :=
  mkHubError "unavailable.network_failure" (CtxMessage "peer is gone").

(** The peer of scenario S4: three messages under ["00000010"]. *)
Definition shallow_node : NodeMetadata :=
  mkNodeMetadata "00000010" 3 "hash_theirs" None.

Definition shallow_peer : RPCClient := {|
  getSyncMetadataByPrefix := fun _ w => (Ret (Ok shallow_node), w);
  getSyncIdsByPrefix := fun _ w => (Ret (Ok ["id1"; "id2"; "id3"]), w);
  getMessagesByHashes := fun hs w => (Ret (Ok (map (fun h => (7%nat, h)) hs)), w);
  getCustodyEventByUser := fun fid w => (Ret (Ok fid), w);
  getAllSignerMessagesByUser := fun fid w => (Ret (Ok [(fid, "signer")]), w)
|}.

(** The peer of scenario S5: 120 messages under ["00000010"], in two
    children, of which the local trie has the first. *)
Definition deep_node : NodeMetadata :=
  mkNodeMetadata "00000010" 120 "hash_theirs"
    (Some [("0", mkNodeMetadata "000000100" 60 "hash_X" None);
           ("1", mkNodeMetadata "000000101" 60 "hash_Y" None)]).

Definition deep_peer : RPCClient := {|
  getSyncMetadataByPrefix := fun p w =>
    (Ret (Ok (if String.eqb p "00000010" then deep_node
              else mkNodeMetadata p 2 "hash_Y" None)), w);
  getSyncIdsByPrefix := fun p w => (Ret (Ok [(p ++ "a")%string; (p ++ "b")%string]), w);
  getMessagesByHashes := fun hs w => (Ret (Ok (map (fun h => (7%nat, h)) hs)), w);
  getCustodyEventByUser := fun fid w => (Ret (Ok fid), w);
  getAllSignerMessagesByUser := fun fid w => (Ret (Ok [(fid, "signer")]), w)
|}.

(** A peer that answers every request with an error. *)
Definition failing_peer : RPCClient := {|
  getSyncMetadataByPrefix := fun _ w => (Ret (Err unavailable_peer), w);
  getSyncIdsByPrefix := fun _ w => (Ret (Err unavailable_peer), w);
  getMessagesByHashes := fun _ w => (Ret (Err unavailable_peer), w);
  getCustodyEventByUser := fun _ w => (Ret (Err unavailable_peer), w);
  getAllSignerMessagesByUser := fun _ w => (Ret (Err unavailable_peer), w)
|}.

(** A peer whose connection breaks: every request rejects. *)
Definition rejecting_peer : RPCClient := {|
  getSyncMetadataByPrefix := fun _ w => (Throw "connection reset", w);
  getSyncIdsByPrefix := fun _ w => (Throw "connection reset", w);
  getMessagesByHashes := fun _ w => (Throw "connection reset", w);
  getCustodyEventByUser := fun _ w => (Throw "connection reset", w);
  getAllSignerMessagesByUser := fun _ w => (Throw "connection reset", w)
|}.

(** A peer that serves messages but no custody events. *)
Definition forgetful_peer : RPCClient := {|
  getSyncMetadataByPrefix := fun _ w => (Ret (Ok shallow_node), w);
  getSyncIdsByPrefix := fun _ w => (Ret (Ok ["id1"; "id2"; "id3"]), w);
  getMessagesByHashes := fun hs w => (Ret (Ok (map (fun h => (7%nat, h)) hs)), w);
  getCustodyEventByUser := fun _ w => (Ret (Err unavailable_peer), w);
  getAllSignerMessagesByUser := fun _ w => (Ret (Err unavailable_peer), w)
|}.

(** A peer that answers a request for sync ids with more of them than one
    call takes as arguments, under a node said to hold three messages. *)
Definition long_answer : list string := repeat "id" (S (N.to_nat max_arguments)).

Definition flooding_peer : RPCClient := {|
  getSyncMetadataByPrefix := fun _ w => (Ret (Ok shallow_node), w);
  getSyncIdsByPrefix := fun _ w => (Ret (Ok long_answer), w);
  getMessagesByHashes := fun hs w => (Ret (Ok (map (fun h => (7%nat, h)) hs)), w);
  getCustodyEventByUser := fun fid w => (Ret (Ok fid), w);
  getAllSignerMessagesByUser := fun fid w => (Ret (Ok [(fid, "signer")]), w)
|}.

Definition idle : State := mkState false [] [].
Definition busy : State := mkState true [] [].

End Scenario.


(** A platform and helpers to run the codec with: integers for numbers,
    byte strings for text, and a JSON library that knows integer literals
    and the contact record of one peer. *)

Module GossipScenario.

#[export] Instance platform : JsPlatform := {|
  Number := Z;
  number_truthy := fun n => negb (n =? 0);
  Error := string;
  TextEncoder_encode := list_byte_of_string;
  TextDecoder_decode := string_of_list_byte
|}.

Definition is_string (v : JsValue) : bool :=
  match v with JsString _ => true | _ => false end.

(** [{ content; topics: string[] }] *)
Definition guard (v : JsValue) : bool :=
  match v with
  | JsObject [(k1, JsObject _); (k2, JsArray topics)] =>
      String.eqb k1 "content" && String.eqb k2 "topics" && forallb is_string topics
  | _ => false
  end.

Lemma guard_object (v : JsValue) : guard v = true -> is_object v = true.
Proof.
  destruct v; simpl; try discriminate. reflexivity.
Qed.

Definition quote : string :=
  String (Ascii.Ascii false true false false false true false false) "".

Definition quoted (s : string) : string := (quote ++ s ++ quote)%string.

Definition contact_info (peerId : string) (count : Z) : JsValue :=
  JsObject
    [("content",
      JsObject [("peerId", JsString peerId);
                ("excludedHashes", JsArray []);
                ("count", JsNumber count)]);
     ("topics", JsArray [JsString "f_network_topic_contact"])].

Definition contact_info_json (peerId : string) (count : Z) : string :=
  ("{" ++ quoted "content" ++ ":{"
       ++ quoted "peerId" ++ ":" ++ quoted peerId ++ ","
       ++ quoted "excludedHashes" ++ ":[],"
       ++ quoted "count" ++ ":" ++ toString count ++ "},"
       ++ quoted "topics" ++ ":[" ++ quoted "f_network_topic_contact" ++ "]}")%string.

Definition parse_failure : HubError string :=
  mkHubError "bad_request.parse_failure" (CtxCause "SyntaxError").

Definition stringify (v : JsValue) : Result string (HubError string) :=
  match v with
  | JsNumber n => Ok (toString n)
  | JsObject
      [(_, JsObject [(_, JsString peerId); (_, JsArray []); (_, JsNumber count)]);
       (_, JsArray [JsString _])] =>
      if guard v then Ok (contact_info_json peerId count) else Err parse_failure
  | _ => Err parse_failure
  end.

Definition parse (text : string) : Result JsValue (HubError string) :=
  match NilZero.int_of_string text with
  | Some n => Ok (JsNumber (Z.of_int n))
  | None =>
      if String.eqb text (contact_info_json "peer1" 3)
      then Ok (contact_info "peer1" 3)
      else Err parse_failure
  end.

#[export] Instance helpers : GossipHelpers := {|
  isGossipMessage := guard;
  isGossipMessage_object := guard_object;
  safeJsonStringify := stringify;
  safeJsonParse := parse
|}.

(** A value that is not a gossip message. *)
Definition a_number : JsValue := JsNumber 42.

Definition peer1_contact : JsValue := contact_info "peer1" 3.
Definition peer1_contact_json : string := contact_info_json "peer1" 3.

End GossipScenario.

(** Further collaborators: storage that takes every message, a peer node
    whose one child the local trie already has, a rank for the trie of the
    peer of scenario S5, and what [initialize] needs. *)

Module MoreScenario.
Import Scenario.

Definition open_storage : Engine := {|
  mergeMessage := fun _ _ w => (Ret (Ok tt), w);
  mergeIdRegistryEvent := fun ev _ w => (Ret (Ok tt), ev :: w);
  mergeMessages := fun ms _ w => (Ret (map (fun _ => Ok tt) ms), w)
|}.

Definition open_hub : SyncEngine := mkSyncEngine trie open_storage.

Definition same_node : NodeMetadata :=
  mkNodeMetadata "00000010" 60 "hash_theirs"
    (Some [("0", mkNodeMetadata "000000100" 60 "hash_X" None)]).

Definition deep_rank (p : string) : nat :=
  if String.eqb p "00000010" then 1%nat else 0%nat.

Definition writer : TrieWriter := {|
  SyncId := string;
  newSyncId := fun m => Ret ("0000001000" ++ snd m)%string;
  insert := fun _ w => (Ret true, w);
  delete := fun _ w => (Ret true, w)
|}.

Definition store : MessageStore := {|
  forEachMessage := fun w => (Ret [(1%nat, "ab"); (1%nat, "cd"); (2%nat, "ef")], w)
|}.

End MoreScenario.

(** * Properties *)

(** ** Pure facts *)

Lemma toString_decimal (z : Z) :
  option_map Z.of_int (NilZero.int_of_string (toString z)) = Some z.
Proof.
  unfold toString.
  rewrite NilZero.isi.
  - simpl. now rewrite DecimalZ.of_to.
  - destruct z; simpl; try discriminate.
    intros E. injection E as E. now apply Unsigned.to_uint_nonnil in E.
  - destruct z; simpl; try discriminate.
    intros E. injection E as E. now apply Unsigned.to_uint_nonnil in E.
Qed.

Lemma snapshotTimestamp_at_floor (nowMs : Z) :
  let seconds := nowMs / 1000 in
  let ts := snapshotTimestamp_at nowMs in
  1000 * seconds <= nowMs < 1000 * seconds + 1000
  /\ ts mod SYNC_THRESHOLD_IN_SECONDS = 0
  /\ ts <= seconds < ts + SYNC_THRESHOLD_IN_SECONDS
  /\ 10 * (ts / 10) = ts.
Proof.
  cbv zeta. unfold snapshotTimestamp_at, SYNC_THRESHOLD_IN_SECONDS.
  pose proof (Z.div_mod nowMs 1000 ltac:(lia)) as E1.
  pose proof (Z.mod_pos_bound nowMs 1000 ltac:(lia)) as B1.
  pose proof (Z.div_mod (nowMs / 1000) 10 ltac:(lia)) as E2.
  pose proof (Z.mod_pos_bound (nowMs / 1000) 10 ltac:(lia)) as B2.
  repeat split; try lia.
  - apply Z.mod_mul; lia.
  - rewrite Z.div_mul by lia. lia.
Qed.

Lemma every_from_eq (theirs : list string) :
  forall (ours front back : list string),
    theirs = front ++ back ->
    List.length ours = List.length back ->
    every_from (fun value index => strict_eq_at value theirs index)
               (List.length front) ours = true
    <-> ours = back.
Proof.
  induction ours as [|x ours IH]; intros front back Hsplit Hlen.
  - destruct back; [simpl; tauto | discriminate].
  - destruct back as [|y back]; [discriminate|].
    simpl in Hlen. injection Hlen as Hlen.
    simpl. unfold strict_eq_at at 1.
    rewrite Hsplit, nth_error_app2, Nat.sub_diag by lia. simpl.
    rewrite <- Hsplit.
    destruct (String.eqb_spec x y) as [->|Hne].
    + specialize (IH (front ++ [y]) back).
      rewrite length_app, Nat.add_1_r in IH. simpl in IH.
      rewrite IH; [| now rewrite <- app_assoc | exact Hlen].
      split; [now intros -> | now intros [= ->]].
    + split; [discriminate | intros [= E _]; contradiction].
Qed.

Lemma excludedHashesMatch_eq (ours theirs : list string) :
  excludedHashesMatch ours theirs = true <-> ours = theirs.
Proof.
  unfold excludedHashesMatch, every.
  destruct (Nat.eqb_spec (List.length ours) (List.length theirs)) as [Hlen | Hlen]; simpl.
  - apply (every_from_eq theirs ours [] theirs eq_refl Hlen).
  - split; [discriminate | intros ->; contradiction].
Qed.

Lemma excludedHashesMatch_differ (ours theirs : list string) :
  negb (excludedHashesMatch ours theirs) = true <-> ours <> theirs.
Proof.
  rewrite negb_true_iff, <- not_true_iff_false.
  now rewrite excludedHashesMatch_eq.
Qed.

(** ** The engine *)

Section EngineProperties.
Context `{HubTypes}.
Variable this : SyncEngine.

Lemma snapshotTimestamp_run (s : State) :
  snapshotTimestamp s
  = (Ret (snapshotTimestamp_at (fst (Date_now (world s)))), after_clock s).
Proof.
  unfold snapshotTimestamp, bind, call, ret, after_clock.
  now destruct (Date_now (world s)).
Qed.

Lemma snapshot_run (s : State) :
  let prefix := toString (snapshotTimestamp_at (fst (Date_now (world s))) / 10) in
  snapshot this s
  = call (TrieGetSnapshot prefix) (getSnapshot (_trie this) prefix) (after_clock s).
Proof.
  cbv zeta. unfold snapshot, bind. now rewrite snapshotTimestamp_run.
Qed.

(** *** Laws of the monad, state by state *)

Lemma bind_ret_l {A B} (a : A) (k : A -> M B) (s : State) :
  bind (ret a) k s = k a s.
Proof. reflexivity. Qed.

Lemma bind_assoc {A B C} (m : M A) (k : A -> M B) (h : B -> M C) (s : State) :
  bind (bind m k) h s = bind m (fun a => bind (k a) h) s.
Proof. unfold bind. now destruct (m s) as [[a | e |] s']. Qed.

Lemma bind_cong {A B} (m : M A) (k1 k2 : A -> M B) (s : State) :
  (forall a s', k1 a s' = k2 a s') -> bind m k1 s = bind m k2 s.
Proof. intros Hk. unfold bind. now destruct (m s) as [[a | e |] s']. Qed.

Lemma mapM_length {A B} (f : A -> M B) (xs : list A) :
  forall s ys s', mapM f xs s = (Ret ys, s') -> List.length ys = List.length xs.
Proof.
  induction xs as [|x rest IH]; intros s ys s'; simpl.
  - now intros [= <- _].
  - unfold bind, ret.
    destruct (f x s) as [[y | e |] s1]; try discriminate.
    destruct (mapM f rest s1) as [[ys' | e |] s2] eqn:Hrest; try discriminate.
    intros [= <- _]. simpl. f_equal. eapply IH, Hrest.
Qed.

(** *** The flag [_isSyncing] is written by [performSync] only *)

Lemma extends_refl (s : State) : extends s s.
Proof.
  split; [reflexivity |]. exists []. simpl. now rewrite app_nil_r.
Qed.

Lemma extends_trans (s1 s2 s3 : State) :
  extends s1 s2 -> extends s2 s3 -> extends s1 s3.
Proof.
  intros [F12 [e12 T12]] [F23 [e23 T23]]. split; [congruence |].
  exists (e12 ++ e23). rewrite T23, T12, F12, map_app. now rewrite app_assoc.
Qed.

Lemma framed_ret {A} (a : A) : framed (ret a).
Proof. intros s. apply extends_refl. Qed.

Lemma framed_diverge {A} : framed (@diverge _ A).
Proof. intros s. apply extends_refl. Qed.

Lemma framed_get_isSyncing : framed get_isSyncing.
Proof. intros s. apply extends_refl. Qed.

Lemma framed_bind {A B} (m : M A) (k : A -> M B) :
  framed m -> (forall a, framed (k a)) -> framed (bind m k).
Proof.
  intros Hm Hk s. unfold bind. specialize (Hm s).
  destruct (m s) as [[a | e |] s']; simpl in Hm; simpl; try exact Hm.
  eapply extends_trans; [exact Hm | apply Hk].
Qed.

Lemma framed_call {A} (e : Event) (op : Op A) : framed (call e op).
Proof.
  intros s. unfold call. destruct (op (world s)) as [o w]. simpl.
  split; [reflexivity |]. now exists [e].
Qed.

Lemma framed_log (level : Level) (text : string) (data : list (string * Z)) :
  framed (log level text data).
Proof.
  intros s. split; [reflexivity |]. now exists [Log level text data].
Qed.

Lemma framed_push_spread {A} (arr items : list A) : framed (push_spread arr items).
Proof.
  intros s. unfold push_spread.
  destruct (N.leb _ _); apply extends_refl.
Qed.

Create HintDb framed.
#[local] Hint Resolve framed_ret framed_diverge framed_get_isSyncing
  framed_call framed_log framed_push_spread : framed.

(** Decompose a computation along its binds and case distinctions. *)
Ltac framed_steps :=
  repeat first
    [ progress auto with framed
    | apply framed_bind; [| intro]
    | match goal with
      | |- framed (match ?x with _ => _ end) => destruct x
      | |- framed (let (_, _) := ?x in _) => destruct x
      end ].

Lemma framed_snapshot : framed (snapshot this).
Proof. unfold snapshot, snapshotTimestamp. framed_steps. Qed.

Lemma framed_syncUserAndRetryMessage (message : Message) (rpcClient : RPCClient) :
  framed (syncUserAndRetryMessage this message rpcClient).
Proof. unfold syncUserAndRetryMessage. framed_steps. Qed.

Lemma framed_merge_loop (rpcClient : RPCClient) (msgs : list Message) :
  forall mergeResults, framed (merge_loop this rpcClient msgs mergeResults).
Proof.
  induction msgs as [|msg rest IH]; intros mergeResults; simpl.
  - framed_steps.
  - pose proof (framed_syncUserAndRetryMessage msg rpcClient).
    framed_steps.
Qed.

Lemma framed_fetchAndMergeMessages (hashes : list string) (rpcClient : RPCClient) :
  framed (fetchAndMergeMessages this hashes rpcClient).
Proof.
  unfold fetchAndMergeMessages.
  pose proof (framed_merge_loop rpcClient).
  framed_steps.
Qed.

Lemma framed_fetch_children (recur : string -> M (list string))
      (ourNode : option NodeMetadata) (entries : list (string * NodeMetadata)) :
  (forall p, framed (recur p)) ->
  forall missingHashes, framed (fetch_children recur ourNode entries missingHashes).
Proof.
  intros Hrecur.
  induction entries as [|[c child] rest IH]; intros missingHashes; simpl;
    framed_steps.
Qed.

Lemma framed_fetchMissingHashesByNode_body (recur : string -> M (list string))
      (theirNode : NodeMetadata) (ourNode : option NodeMetadata)
      (rpcClient : RPCClient) :
  (forall p, framed (recur p)) ->
  framed (fetchMissingHashesByNode_body recur theirNode ourNode rpcClient).
Proof.
  intros Hrecur. unfold fetchMissingHashesByNode_body.
  pose proof (framed_fetch_children recur ourNode).
  framed_steps.
Qed.

Lemma framed_fetchMissingHashesByPrefix (rpcClient : RPCClient) (fuel : nat) :
  forall prefix, framed (fetchMissingHashesByPrefix this fuel prefix rpcClient).
Proof.
  induction fuel as [|fuel IH]; intros prefix; simpl.
  - framed_steps.
  - pose proof (fun theirNode ourNode =>
                  framed_fetchMissingHashesByNode_body _ theirNode ourNode rpcClient IH).
    framed_steps.
Qed.

(** C6: whatever the clock reads, [snapshotTimestamp] is the current UNIX
    time in seconds floored to a multiple of [SYNC_THRESHOLD_IN_SECONDS]
    (10), that is [floor(floor(t_ms / 1000) / 10) * 10], and [snapshot]
    calls [trie.getSnapshot] with the decimal rendering of that timestamp
    divided by 10, a division that is exact. *)
Theorem snapshot_on_sync_threshold :
  forall s : State,
    let t_ms := fst (Date_now (world s)) in
    let seconds := t_ms / 1000 in
    let ts := seconds / 10 * 10 in
    let prefix := toString (ts / 10) in
    snapshotTimestamp s = (Ret ts, after_clock s)
    /\ 1000 * seconds <= t_ms < 1000 * seconds + 1000
    /\ ts mod SYNC_THRESHOLD_IN_SECONDS = 0
    /\ ts <= seconds < ts + SYNC_THRESHOLD_IN_SECONDS
    /\ 10 * (ts / 10) = ts
    /\ option_map Z.of_int (NilZero.int_of_string prefix) = Some (ts / 10)
    /\ snapshot this s
       = call (TrieGetSnapshot prefix) (getSnapshot (_trie this) prefix)
              (after_clock s).
Proof.
  intros s t_ms seconds ts prefix.
  destruct (snapshotTimestamp_at_floor t_ms) as (Hms & Hmod & Hfloor & Hexact).
  repeat split; try (exact Hmod || exact Hexact || apply Hms || apply Hfloor).
  - apply snapshotTimestamp_run.
  - apply toString_decimal.
  - apply snapshot_run.
Qed.

(** C2: [shouldSync] answers [false] while [_isSyncing] is set, without
    taking a snapshot; otherwise it answers [true] exactly when the
    snapshot's [excludedHashes] and the peer's list are different lists
    (different lengths included). *)
Theorem shouldSync_iff_excluded_hashes_differ :
  forall (theirs : list string) (s : State),
    (_isSyncing s = true ->
     shouldSync this theirs s
     = (Ret false,
        mkState true (world s)
                (trace s ++ [(true, Log Debug "shouldSync: already syncing" [])])))
    /\ (_isSyncing s = false ->
        forall ours s1,
          snapshot this s = (Ret ours, s1) ->
          exists b s2,
            shouldSync this theirs s = (Ret b, s2)
            /\ world s2 = world s1
            /\ (b = true <-> excludedHashes ours <> theirs)).
Proof.
  intros theirs s. split.
  - intros Hsync. destruct s as [flag w tr]. simpl in Hsync. now subst flag.
  - intros Hidle ours s1 Hsnap.
    exists (negb (excludedHashesMatch (excludedHashes ours) theirs)).
    eexists. unfold shouldSync, bind, get_isSyncing, log, emit, ret.
    rewrite Hidle, Hsnap. simpl.
    split; [reflexivity | split; [reflexivity |]].
    apply excludedHashesMatch_differ.
Qed.

(** C7: on an empty list of hashes [fetchAndMergeMessages] returns [false]
    and leaves the state as it was: nothing is requested from the peer. *)
Theorem fetchAndMergeMessages_empty :
  forall (rpcClient : RPCClient) (s : State),
    fetchAndMergeMessages this [] rpcClient s = (Ret false, s).
Proof.
  reflexivity.
Qed.

(** *** [fetchMissingHashesByNode] *)

Lemma rpc_calls_app (t1 t2 : list (bool * Event)) :
  rpc_calls (t1 ++ t2) = rpc_calls t1 ++ rpc_calls t2.
Proof. unfold rpc_calls. now rewrite map_app, filter_app. Qed.

Lemma strict_neq_missing_or_differs (ourNode : option NodeMetadata)
      (byte : string) (theirChild : NodeMetadata) :
  strict_neq (our_child_hash ourNode byte) (hash theirChild)
  = missing_or_differs_spec ourNode (byte, theirChild).
Proof.
  unfold missing_or_differs_spec, our_child, our_child_hash. simpl.
  destruct ourNode as [n|]; [| reflexivity].
  destruct (children n) as [m|]; [| reflexivity].
  now destruct (Map_get m byte).
Qed.

Lemma bind_cong_on {A B} (m : M A) (k1 k2 : A -> M B) (s : State) :
  (forall a s', m s = (Ret a, s') -> k1 a s' = k2 a s') ->
  bind m k1 s = bind m k2 s.
Proof.
  intros Hk. unfold bind.
  destruct (m s) as [[a | e |] s'] eqn:Hrun; [now apply Hk | reflexivity ..].
Qed.

Lemma push_spread_fits {A} (arr items : list A) (s : State) :
  (N.of_nat (List.length items) <= max_arguments)%N ->
  push_spread arr items s = (Ret (arr ++ items), s).
Proof.
  intros Hfits. unfold push_spread.
  now destruct (N.leb_spec (N.of_nat (List.length items)) max_arguments); [| lia].
Qed.

Lemma push_spread_overflows {A} (arr items : list A) (s : State) :
  (max_arguments < N.of_nat (List.length items))%N ->
  push_spread arr items s = (Throw RangeError, s).
Proof.
  intros Hlong. unfold push_spread.
  now destruct (N.leb_spec (N.of_nat (List.length items)) max_arguments); [lia |].
Qed.

Lemma push_spread_returned {A} (arr items pushed : list A) (s s' : State) :
  push_spread arr items s = (Ret pushed, s') ->
  pushed = arr ++ items /\ s' = s /\ (N.of_nat (List.length items) <= max_arguments)%N.
Proof.
  unfold push_spread.
  destruct (N.leb_spec (N.of_nat (List.length items)) max_arguments);
    [now intros [= <- <-] | discriminate].
Qed.

(** What [fetchMissingHashesByPrefix] returns went through a spread call,
    so it fits in one. *)
Lemma fetchMissingHashesByPrefix_fits (fuel : nat) (prefix : string)
      (rpcClient : RPCClient) (s s' : State) (ids : list string) :
  fetchMissingHashesByPrefix this fuel prefix rpcClient s = (Ret ids, s') ->
  (N.of_nat (List.length ids) <= max_arguments)%N.
Proof.
  destruct fuel as [|fuel]; simpl; [discriminate |].
  unfold bind at 1.
  destruct (call _ _ s) as [[ourNode | e |] s1]; try discriminate.
  unfold bind at 1.
  destruct (call _ _ s1) as [[[theirNode | e] | e |] s2]; try discriminate.
  - unfold bind.
    destruct (fetchMissingHashesByNode_body _ theirNode ourNode rpcClient s2)
      as [[more | e |] s3]; try discriminate.
    intros Hpushed. apply push_spread_returned in Hpushed.
    destruct Hpushed as (-> & _ & Hfits). exact Hfits.
  - unfold bind, log, emit, ret. intros [= <- _]. simpl. lia.
Qed.

Lemma fetch_children_spec (recur : string -> M (list string))
      (ourNode : option NodeMetadata) (entries : list (string * NodeMetadata)) :
  (forall p s ids s',
      recur p s = (Ret ids, s') -> (N.of_nat (List.length ids) <= max_arguments)%N) ->
  forall (missingHashes : list string) (s : State),
    fetch_children recur ourNode entries missingHashes s
    = (found <- mapM (fun entry => recur (prefix (snd entry)))
                     (filter (missing_or_differs_spec ourNode) entries);;
       ret (missingHashes ++ List.concat found)) s.
Proof.
  intros Hfits.
  induction entries as [|[byte child] rest IH]; intros missingHashes s.
  - simpl. unfold bind, ret. simpl. now rewrite app_nil_r.
  - simpl fetch_children. simpl filter.
    rewrite strict_neq_missing_or_differs.
    destruct (missing_or_differs_spec ourNode (byte, child)).
    + simpl mapM. rewrite bind_assoc. apply bind_cong_on. intros more s1 Hmore.
      unfold bind at 1.
      rewrite (push_spread_fits missingHashes more s1 (Hfits _ _ _ _ Hmore)).
      rewrite bind_assoc, IH. apply bind_cong. intros found s2.
      rewrite bind_ret_l. unfold ret. simpl. now rewrite app_assoc.
    + apply IH.
Qed.

(** Within the argument limit.  When the peer's node holds at most
    [HASHES_PER_FETCH] (50) messages, [fetchMissingHashesByNode] sends the
    one request [getSyncIdsByPrefix(theirNode.prefix)] and, when the answer
    holds no more ids than one call takes as arguments, returns the ids it
    yields (none if it yields an error), whatever the children are; when
    the node holds more messages, it runs [fetchMissingHashesByPrefix] on
    exactly those children of the peer's node that the local node lacks or
    whose hash differs, in order, and returns their results concatenated. *)
Lemma fetchMissingHashesByNode_cases :
  forall (fuel : nat) (theirNode : NodeMetadata) (ourNode : option NodeMetadata)
         (rpcClient : RPCClient) (s : State),
    (numMessages theirNode <= HASHES_PER_FETCH ->
     exists o s',
       fetchMissingHashesByNode this fuel theirNode ourNode rpcClient s = (o, s')
       /\ rpc_calls (trace s')
          = rpc_calls (trace s) ++ [RpcGetSyncIdsByPrefix (prefix theirNode)]
       /\ world s' = snd (getSyncIdsByPrefix rpcClient (prefix theirNode) (world s))
       /\ (forall ids,
             fst (getSyncIdsByPrefix rpcClient (prefix theirNode) (world s))
             = Ret (Ok ids) ->
             (N.of_nat (List.length ids) <= max_arguments)%N ->
             o = Ret ids)
       /\ (forall e,
             fst (getSyncIdsByPrefix rpcClient (prefix theirNode) (world s))
             = Ret (Err e) -> o = Ret []))
    /\ (HASHES_PER_FETCH < numMessages theirNode ->
        fetchMissingHashesByNode this fuel theirNode ourNode rpcClient s
        = (found <- mapM (fun entry =>
                            fetchMissingHashesByPrefix this fuel (prefix (snd entry))
                                                       rpcClient)
                         (children_to_fetch_spec ourNode theirNode);;
           ret (List.concat found)) s).
Proof.
  intros fuel theirNode ourNode rpcClient s.
  unfold fetchMissingHashesByNode, fetchMissingHashesByNode_body. split.
  - intros Hfew. apply Z.leb_le in Hfew. rewrite Hfew.
    unfold bind, call, log, emit, ret.
    destruct (getSyncIdsByPrefix rpcClient (prefix theirNode) (world s))
      as [[[ids | e] | e |] w]; cbn [fst snd].
    + destruct (N.leb_spec (N.of_nat (List.length ids)) max_arguments) as [Hfits | Hlong].
      * rewrite push_spread_fits by exact Hfits.
        do 2 eexists. split; [reflexivity |]. cbn [trace world].
        rewrite rpc_calls_app. split; [reflexivity |]. split; [reflexivity |].
        split; [now intros ? [= <-] _ | discriminate].
      * rewrite push_spread_overflows by exact Hlong.
        do 2 eexists. split; [reflexivity |]. cbn [trace world].
        rewrite rpc_calls_app. split; [reflexivity |]. split; [reflexivity |].
        split; [intros ? [= <-] ?; lia | discriminate].
    + do 2 eexists. split; [reflexivity |]. cbn [trace world _isSyncing].
      rewrite !rpc_calls_app. simpl. rewrite app_nil_r.
      split; [reflexivity |]. split; [reflexivity |].
      split; [discriminate | reflexivity].
    + do 2 eexists. split; [reflexivity |]. cbn [trace world].
      rewrite rpc_calls_app. split; [reflexivity |]. split; [reflexivity |].
      split; discriminate.
    + do 2 eexists. split; [reflexivity |]. cbn [trace world].
      rewrite rpc_calls_app. split; [reflexivity |]. split; [reflexivity |].
      split; discriminate.
  - intros Hmany. apply Z.leb_gt in Hmany. rewrite Hmany.
    unfold children_to_fetch_spec.
    destruct (children theirNode) as [entries|]; [| reflexivity].
    rewrite fetch_children_spec; [reflexivity |].
    intros p s0 ids s' Hrun.
    exact (fetchMissingHashesByPrefix_fits fuel p rpcClient s0 s' ids Hrun).
Qed.

(** C1 asks that all the ids the peer yields be returned; on a long answer
    the code does not.  When the peer's node holds at most
    [HASHES_PER_FETCH] (50) messages and the peer answers the request for
    its sync ids with more ids than one call takes as arguments,
    [missingHashes.push(...ids)] throws: [fetchMissingHashesByNode] sends
    the one request and then throws [RangeError] instead of returning the
    ids. *)
Theorem fetchMissingHashesByNode_long_answer_throws :
  forall (fuel : nat) (theirNode : NodeMetadata) (ourNode : option NodeMetadata)
         (rpcClient : RPCClient) (s : State) (ids : list string) (w1 : World),
    numMessages theirNode <= HASHES_PER_FETCH ->
    getSyncIdsByPrefix rpcClient (prefix theirNode) (world s) = (Ret (Ok ids), w1) ->
    (max_arguments < N.of_nat (List.length ids))%N ->
    fetchMissingHashesByNode this fuel theirNode ourNode rpcClient s
    = (Throw RangeError,
       mkState (_isSyncing s) w1
               (trace s ++ [(_isSyncing s, RpcGetSyncIdsByPrefix (prefix theirNode))])).
Proof.
  intros fuel theirNode ourNode rpcClient s ids w1 Hfew Hanswer Hlong.
  unfold fetchMissingHashesByNode, fetchMissingHashesByNode_body.
  apply Z.leb_le in Hfew. rewrite Hfew.
  unfold bind, call. rewrite Hanswer.
  now rewrite push_spread_overflows.
Qed.

(** The same spread call ends [fetchMissingHashesByPrefix]: when the node
    below the prefix yields more hashes than one call takes, they are not
    returned. *)
Lemma fetchMissingHashesByPrefix_overflows (fuel : nat) (prefix : string)
      (rpcClient : RPCClient) (s s3 : State) (ourNode : option NodeMetadata)
      (theirNode : NodeMetadata) (w1 w2 : World) (more : list string) :
  getTrieNodeMetadata (_trie this) prefix (world s) = (Ret ourNode, w1) ->
  getSyncMetadataByPrefix rpcClient prefix w1 = (Ret (Ok theirNode), w2) ->
  fetchMissingHashesByNode this fuel theirNode ourNode rpcClient
    (mkState (_isSyncing s) w2
             (trace s ++ [(_isSyncing s, TrieGetTrieNodeMetadata prefix)]
                     ++ [(_isSyncing s, RpcGetSyncMetadataByPrefix prefix)]))
  = (Ret more, s3) ->
  (max_arguments < N.of_nat (List.length more))%N ->
  fetchMissingHashesByPrefix this (S fuel) prefix rpcClient s
  = (Throw RangeError, s3).
Proof.
  intros Hours Htheirs Hnode Hlong. simpl.
  unfold bind at 1. unfold call at 1. rewrite Hours.
  unfold bind at 1. unfold call at 1. cbn [world _isSyncing trace].
  rewrite Htheirs. unfold bind.
  unfold fetchMissingHashesByNode in Hnode.
  rewrite <- app_assoc. rewrite Hnode.
  now apply push_spread_overflows.
Qed.

(** *** More fuel changes nothing once the walk finishes *)

Lemma finishes_as_refl {A} (m : M A) : finishes_as m m.
Proof. now intros s _. Qed.

Lemma finishes_as_bind {A B} (m m' : M A) (k k' : A -> M B) :
  finishes_as m m' -> (forall a, finishes_as (k a) (k' a)) ->
  finishes_as (bind m k) (bind m' k').
Proof.
  intros Hm Hk s Hfin. unfold bind in *.
  destruct (m s) as [[a | e |] s1] eqn:Hrun.
  - rewrite (Hm s), Hrun by (rewrite Hrun; discriminate). now apply Hk.
  - now rewrite (Hm s), Hrun by (rewrite Hrun; discriminate).
  - now contradiction Hfin.
Qed.

Lemma finishes_as_fetch_children (recur recur' : string -> M (list string))
      (ourNode : option NodeMetadata) (entries : list (string * NodeMetadata)) :
  (forall p, finishes_as (recur p) (recur' p)) ->
  forall missingHashes,
    finishes_as (fetch_children recur ourNode entries missingHashes)
                (fetch_children recur' ourNode entries missingHashes).
Proof.
  intros Hrecur.
  induction entries as [|[byte child] rest IH]; intros missingHashes; simpl.
  - apply finishes_as_refl.
  - destruct (strict_neq _ _); [| apply IH].
    apply finishes_as_bind; [apply Hrecur | intros more].
    apply finishes_as_bind; [apply finishes_as_refl | intros pushed; apply IH].
Qed.

Lemma finishes_as_more_fuel (rpcClient : RPCClient) (fuel : nat) :
  forall prefix,
    finishes_as (fetchMissingHashesByPrefix this fuel prefix rpcClient)
                (fetchMissingHashesByPrefix this (S fuel) prefix rpcClient).
Proof.
  induction fuel as [|fuel IH]; intros prefix.
  - intros s Hfin. now contradiction Hfin.
  - change (fetchMissingHashesByPrefix this (S (S fuel)) prefix rpcClient)
      with (ourNode <- call (TrieGetTrieNodeMetadata prefix)
                            (getTrieNodeMetadata (_trie this) prefix);;
            theirNodeResult <- call (RpcGetSyncMetadataByPrefix prefix)
                                    (getSyncMetadataByPrefix rpcClient prefix);;
            match theirNodeResult with
            | Ok theirNode =>
                more <- fetchMissingHashesByNode_body
                          (fun p => fetchMissingHashesByPrefix this (S fuel) p rpcClient)
                          theirNode ourNode rpcClient;;
                push_spread [] more
            | Err _ =>
                log Warn ("Error fetching metadata for prefix " ++ prefix)%string [];;
                ret []
            end).
    simpl fetchMissingHashesByPrefix at 1.
    apply finishes_as_bind; [apply finishes_as_refl | intros ourNode].
    apply finishes_as_bind; [apply finishes_as_refl | intros [theirNode | e]];
      [| apply finishes_as_refl].
    apply finishes_as_bind; [| intros more; apply finishes_as_refl].
    unfold fetchMissingHashesByNode_body.
    destruct (numMessages theirNode <=? HASHES_PER_FETCH);
      [apply finishes_as_refl |].
    destruct (children theirNode) as [entries |]; [| apply finishes_as_refl].
    now apply finishes_as_fetch_children.
Qed.

(** Once [fuel] lets the walk finish, any larger amount gives the same
    outcome and the same state. *)
Lemma fetchMissingHashesByPrefix_enough_fuel (rpcClient : RPCClient)
      (prefix : string) (s : State) (fuel extra : nat) :
  fst (fetchMissingHashesByPrefix this fuel prefix rpcClient s) <> Diverge ->
  fetchMissingHashesByPrefix this (extra + fuel) prefix rpcClient s
  = fetchMissingHashesByPrefix this fuel prefix rpcClient s.
Proof.
  intros Hfin. induction extra as [|extra IH]; [reflexivity |].
  simpl plus. rewrite <- IH. apply finishes_as_more_fuel. now rewrite IH.
Qed.

(** *** [syncUserAndRetryMessage] *)










Lemma syncUserAndRetryMessage_returns (rpcClient : RPCClient) (message : Message)
      (s : State) :
  recovery_settles this rpcClient ->
  exists r s', syncUserAndRetryMessage this message rpcClient s = (Ret r, s').
Proof.
  intros (Hcustody & Hsigners & Hevent & Hmerges & Hmerge).
  unfold syncUserAndRetryMessage, bind, call, ret.
  destruct (Hcustody (message_fid message) (world s)) as [[ev | e] [w1 E1]];
    rewrite E1; simpl; [| eauto].
  destruct (Hevent ev "SyncEngine" w1) as [merged [w2 E2]]. rewrite E2. simpl.
  destruct (Hsigners (message_fid message) w2) as [[ms | e] [w3 E3]];
    rewrite E3; simpl; [| eauto].
  destruct (Hmerges ms "SyncEngine" w3) as [results [w4 E4]]. rewrite E4. simpl.
  destruct (forallb isErr results); [eauto |]. simpl.
  destruct (Hmerge message "SyncEngine" w4) as [retry [w5 E5]]. rewrite E5.
  simpl. eauto.
Qed.

(** *** [fetchAndMergeMessages] *)

Lemma merge_step_spec (rpcClient : RPCClient) (msg : Message)
      (k : MergeResult -> M (list MergeResult)) (s : State) :
  (result <- call (EngineMergeMessage msg "SyncEngine")
                  (mergeMessage (engine this) msg "SyncEngine");;
   if is_unknown_user result then
     log Warn "Unknown user, fetching custody event" [];;
     result' <- syncUserAndRetryMessage this msg rpcClient;;
     k (inr result')
   else k (inl result)) s
  = bind (merge_one_spec this rpcClient msg) k s.
Proof.
  unfold merge_one_spec. rewrite bind_assoc. apply bind_cong.
  intros [[] | error] s1; simpl.
  - now rewrite bind_ret_l.
  - destruct (statusCode error =? 412).
    + rewrite bind_assoc. apply bind_cong. intros [] s2.
      rewrite bind_assoc. apply bind_cong. intros recovered s3.
      now rewrite bind_ret_l.
    + now rewrite bind_ret_l.
Qed.

Lemma merge_loop_spec (rpcClient : RPCClient) (msgs : list Message) :
  forall (mergeResults : list MergeResult) (s : State),
    merge_loop this rpcClient msgs mergeResults s
    = (results <- mapM (merge_one_spec this rpcClient) msgs;;
       ret (mergeResults ++ results)) s.
Proof.
  induction msgs as [|msg rest IH]; intros mergeResults s.
  - simpl. rewrite bind_ret_l. unfold ret. now rewrite app_nil_r.
  - simpl merge_loop.
    rewrite (merge_step_spec rpcClient msg
               (fun r => merge_loop this rpcClient rest (mergeResults ++ [r]))).
    simpl mapM. rewrite bind_assoc. apply bind_cong. intros r s1.
    rewrite IH, bind_assoc. apply bind_cong. intros results s2.
    rewrite bind_ret_l. unfold ret. now rewrite <- app_assoc.
Qed.

(** C4: on a non-empty list of hashes [fetchAndMergeMessages] asks the peer
    for the messages of the hashes, each prefixed by ["0x"], and merges the
    messages returned one after the other in list order with
    [mergeMessage(message, 'SyncEngine')], running
    [syncUserAndRetryMessage] for exactly those whose merge fails with
    status code 412. *)
Theorem fetchAndMergeMessages_sequential :
  forall (hashes : list string) (rpcClient : RPCClient) (s : State),
    hashes <> [] ->
    fetchAndMergeMessages this hashes rpcClient s
    = fetchAndMergeMessages_spec this hashes rpcClient s.
Proof.
  intros hashes rpcClient s Hne.
  unfold fetchAndMergeMessages, fetchAndMergeMessages_spec.
  destruct hashes as [|hash hashes]; [contradiction |].
  cbn [List.length Nat.eqb]. cbv zeta.
  apply bind_cong. intros [msgs | e] s1; [| reflexivity].
  unfold bind at 1. rewrite merge_loop_spec.
  unfold bind at 1 3.
  destruct (mapM (merge_one_spec this rpcClient) msgs s1)
    as [[results | e |] s2] eqn:Hrun; try reflexivity.
  simpl. apply mapM_length in Hrun. now rewrite Hrun.
Qed.

Lemma merge_loop_returns (rpcClient : RPCClient) (msgs : list Message) :
  recovery_settles this rpcClient ->
  forall (mergeResults : list MergeResult) (s : State),
  exists results s',
    merge_loop this rpcClient msgs mergeResults s = (Ret results, s').
Proof.
  intros Hsettles.
  induction msgs as [|msg rest IH]; intros mergeResults s; simpl.
  - unfold ret. eauto.
  - unfold bind at 1. unfold call.
    pose proof Hsettles as (_ & _ & _ & _ & Hmerge).
    destruct (Hmerge msg "SyncEngine" (world s)) as [result [w1 E1]].
    rewrite E1.
    destruct (is_unknown_user result); [| apply IH].
    unfold bind, log, emit. simpl.
    match goal with
    | |- context [syncUserAndRetryMessage this msg rpcClient ?s1] =>
        destruct (syncUserAndRetryMessage_returns rpcClient msg s1)
          as [recovered [s2 E2]]
    end.
    { exact Hsettles. }
    rewrite E2. apply IH.
Qed.

Lemma fetchAndMergeMessages_fetched (hashes : list string) (rpcClient : RPCClient)
      (s : State) (msgs : list Message) (w1 : World) :
  hashes <> [] ->
  getMessagesByHashes rpcClient (map (String.append "0x") hashes) (world s)
  = (Ret (Ok msgs), w1) ->
  fetchAndMergeMessages this hashes rpcClient s
  = (mergeResults <- merge_loop this rpcClient msgs [];;
     log Info "Merged messages"
         [("messages"%string, Z.of_nat (List.length mergeResults));
          ("success"%string,
           Z.of_nat (List.length (filter mergeResult_isOk mergeResults)))];;
     ret true)
      (mkState (_isSyncing s) w1
               (trace s ++ [(_isSyncing s,
                             RpcGetMessagesByHashes
                               (map (String.append "0x") hashes))])).
Proof.
  intros Hne Hfetch. unfold fetchAndMergeMessages.
  destruct hashes as [|hash hashes]; [contradiction |].
  cbn [List.length Nat.eqb]. cbv zeta.
  unfold bind at 1. unfold call.
  change (map (fun hash0 : string => ("0x" ++ hash0)%string) (hash :: hashes))
    with (map (String.append "0x") (hash :: hashes)).
  now rewrite Hfetch.
Qed.

Lemma fetchAndMergeMessages_answered (hashes : list string) (rpcClient : RPCClient)
      (s : State) :
  hashes <> [] ->
  fetchAndMergeMessages this hashes rpcClient s
  = (messages <- call (RpcGetMessagesByHashes (map (String.append "0x") hashes))
                      (getMessagesByHashes rpcClient
                                           (map (String.append "0x") hashes));;
     match messages with
     | Ok msgs =>
         mergeResults <- merge_loop this rpcClient msgs [];;
         log Info "Merged messages"
             [("messages"%string, Z.of_nat (List.length mergeResults));
              ("success"%string,
               Z.of_nat (List.length (filter mergeResult_isOk mergeResults)))];;
         ret true
     | Err _ =>
         log Warn "Error fetching messages for sync" [];;
         ret false
     end) s.
Proof.
  intros Hne. unfold fetchAndMergeMessages.
  destruct hashes as [|hash hashes]; [contradiction | reflexivity].
Qed.

(** C9: the boolean of [fetchAndMergeMessages] says only whether the list of
    hashes was non-empty and the peer delivered the messages.  It is
    [false] on the empty list and [false] when the peer answers the request
    with an error; once the peer has delivered, it is never [false], and it
    is [true] whatever storage and the recovery of users answer, failures
    of every merge and of every recovery included. *)
Theorem fetchAndMergeMessages_true_despite_failed_merges :
  forall (hashes : list string) (rpcClient : RPCClient) (s : State),
    (hashes = [] ->
     fetchAndMergeMessages this hashes rpcClient s = (Ret false, s))
    /\ (hashes <> [] ->
        forall answer w1,
          getMessagesByHashes rpcClient (map (String.append "0x") hashes) (world s)
          = (answer, w1) ->
          match answer with
          | Ret (Ok msgs) =>
              (forall b s',
                  fetchAndMergeMessages this hashes rpcClient s = (Ret b, s') ->
                  b = true)
              /\ (recovery_settles this rpcClient ->
                  exists s',
                    fetchAndMergeMessages this hashes rpcClient s = (Ret true, s'))
          | Ret (Err _) =>
              exists s',
                fetchAndMergeMessages this hashes rpcClient s = (Ret false, s')
                /\ world s' = w1
          | Throw e =>
              fst (fetchAndMergeMessages this hashes rpcClient s) = Throw e
          | Diverge =>
              fst (fetchAndMergeMessages this hashes rpcClient s) = Diverge
          end).
Proof.
  intros hashes rpcClient s. split.
  { now intros ->. }
  intros Hne answer w1 Hfetch.
  pose proof (fetchAndMergeMessages_answered hashes rpcClient s Hne) as Hrun.
  unfold bind at 1 in Hrun. unfold call in Hrun. rewrite Hfetch in Hrun.
  destruct answer as [[msgs | e] | e |]; rewrite Hrun; clear Hrun;
    [| | reflexivity | reflexivity].
  - unfold bind, log, emit, ret. split.
    + intros b s'.
      destruct (merge_loop this rpcClient msgs [] _) as [[results | e |] s2];
        now intros [= <- _].
    + intros Hsettles.
      match goal with
      | |- context [merge_loop this rpcClient msgs [] ?s1] =>
          destruct (merge_loop_returns rpcClient msgs Hsettles [] s1)
            as [results [s2 E2]]
      end.
      rewrite E2. eauto.
  - unfold bind, log, emit, ret. eexists. split; reflexivity.
Qed.

(** *** [performSync] *)

Lemma performSync_pipeline_extends (fuel : nat) (theirs : list string)
      (rpcClient : RPCClient) (s : State) :
  extends (mkState true (world s) (trace s))
          (snd (performSync_pipeline this fuel theirs rpcClient s)).
Proof.
  unfold performSync_pipeline.
  match goal with
  | |- context [bind (set_isSyncing true) ?k] =>
      assert (Hrest : framed (k tt));
      [| exact (Hrest (mkState true (world s) (trace s)))]
  end.
  pose proof framed_snapshot.
  pose proof (framed_fetchMissingHashesByPrefix rpcClient fuel).
  pose proof (fun hashes => framed_fetchAndMergeMessages hashes rpcClient).
  framed_steps.
Qed.

(** C3: [performSync] holds [_isSyncing] at [true] from its first step to
    its last (every event of the run is stamped [true]), leaves it [false]
    whenever it returns, and never throws: an exception raised inside the
    pipeline is logged with a warning and swallowed.  The only way not to
    return is for the pipeline itself never to finish. *)
Theorem performSync_guards_and_never_throws :
  forall (fuel : nat) (theirs : list string) (rpcClient : RPCClient) (s : State),
  exists (o : Outcome Exn unit) (s' : State) (evs : list Event),
    performSync this fuel theirs rpcClient s = (o, s')
    /\ trace s' = trace s ++ map (pair true) evs
    /\ ((o = Ret tt /\ _isSyncing s' = false)
        \/ (o = Diverge /\ _isSyncing s' = true
            /\ fst (performSync_pipeline this fuel theirs rpcClient s) = Diverge))
    /\ (forall e s1,
          performSync_pipeline this fuel theirs rpcClient s = (Throw e, s1) ->
          o = Ret tt
          /\ s' = mkState false (world s1)
                          (trace s1 ++ [(true, Log Warn "Error performing sync" [])])).
Proof.
  intros fuel theirs rpcClient s.
  destruct (performSync_pipeline_extends fuel theirs rpcClient s)
    as [Hflag [evs Htrace]].
  unfold performSync, try_catch_finally.
  destruct (performSync_pipeline this fuel theirs rpcClient s) as [[[] | e |] s1];
    simpl in Hflag, Htrace; unfold set_isSyncing, log, emit; simpl.
  - exists (Ret tt), (mkState false (world s1) (trace s1)), evs.
    split; [reflexivity |]. split; [exact Htrace |].
    split; [now left | discriminate].
  - rewrite Hflag.
    exists (Ret tt),
      (mkState false (world s1)
               (trace s1 ++ [(true, Log Warn "Error performing sync" [])])),
      (evs ++ [Log Warn "Error performing sync" []]).
    split; [reflexivity |]. split.
    { simpl. now rewrite Htrace, map_app, app_assoc. }
    split; [now left |].
    intros e' s1' [= <- <-]. now split.
  - exists Diverge, s1, evs.
    split; [reflexivity |]. split; [exact Htrace |].
    split; [now right | discriminate].
Qed.

End EngineProperties.

(** ** The gossip codec *)

Section GossipProperties.
Context `{GossipHelpers}.

Lemma is_object_truthy (v : JsValue) : is_object v = true -> truthy v = true.
Proof. now destruct v. Qed.

(** C8: a value that is not a gossip message is refused by [encodeMessage],
    and bytes that parse to such a value are refused by [decodeMessage]:
    both return the error [bad_request.parse_failure], of kind [bad_input];
    neither produces output. *)
Theorem codec_refuses_invalid_envelopes :
  forall message : JsValue,
    isGossipMessage message = false ->
    encodeMessage message = Err invalid_gossip_message
    /\ (forall data,
          safeJsonParse (TextDecoder_decode data) = Ok message ->
          decodeMessage data = Err invalid_gossip_message)
    /\ errCode invalid_gossip_message = "bad_request.parse_failure"
    /\ error_kind (errCode invalid_gossip_message) = bad_input.
Proof.
  intros message Hinvalid. unfold encodeMessage, decodeMessage.
  rewrite Hinvalid. simpl. repeat split.
  intros data Hparse. rewrite Hparse. simpl.
  now rewrite Hinvalid, orb_true_r.
Qed.

(** C10: for a gossip message that the guard accepts and that survives
    JSON (it is serialised to a text that decodes from its own UTF-8
    encoding and parses back to the message), [decodeMessage] applied to
    the bytes [encodeMessage] produces returns the message. *)
Theorem decode_encode_round_trip :
  forall (m : JsValue) (json : string),
    isGossipMessage m = true ->
    safeJsonStringify m = Ok json ->
    TextDecoder_decode (TextEncoder_encode json) = json ->
    safeJsonParse json = Ok m ->
    exists data, encodeMessage m = Ok data /\ decodeMessage data = Ok m.
Proof.
  intros m json Hvalid Hjson Hutf8 Hparse.
  exists (TextEncoder_encode json). unfold encodeMessage, decodeMessage.
  rewrite Hvalid, Hjson. simpl. split; [reflexivity |].
  rewrite Hutf8, Hparse. simpl.
  now rewrite Hvalid, (is_object_truthy m (isGossipMessage_object m Hvalid)).
Qed.

End GossipProperties.

(** * Further properties *)

(** ** The snapshot boundary *)

Lemma toString_inj (a b : Z) : toString a = toString b -> a = b.
Proof.
  intros E. pose proof (toString_decimal a) as Ha.
  rewrite E, toString_decimal in Ha. now injection Ha.
Qed.

Lemma snapshotTimestamp_at_window (nowMs : Z) :
  snapshotTimestamp_at nowMs / 10 = nowMs / 10000.
Proof.
  unfold snapshotTimestamp_at, SYNC_THRESHOLD_IN_SECONDS.
  rewrite Z.div_mul by lia. now rewrite Z.div_div by lia.
Qed.

Section MoreEngineProperties.
Context `{HubTypes}.
Variable this : SyncEngine.

(** X1: [snapshotTimestamp] is the greatest multiple of
    [SYNC_THRESHOLD_IN_SECONDS] seconds that is not after the clock
    reading: it is such a multiple, and any other is at most it. *)
Theorem snapshotTimestamp_greatest :
  forall (s : State) (m : Z),
    m mod SYNC_THRESHOLD_IN_SECONDS = 0 ->
    1000 * m <= fst (Date_now (world s)) ->
    exists ts,
      fst (snapshotTimestamp s) = Ret ts
      /\ ts mod SYNC_THRESHOLD_IN_SECONDS = 0
      /\ 1000 * ts <= fst (Date_now (world s))
      /\ m <= ts.
Proof.
  intros s m Hmul Hpast. rewrite snapshotTimestamp_run. cbn [fst].
  exists (snapshotTimestamp_at (fst (Date_now (world s)))).
  split; [reflexivity |].
  destruct (snapshotTimestamp_at_floor (fst (Date_now (world s))))
    as (Hms & Hmod & Hfloor & _).
  split; [exact Hmod |].
  unfold SYNC_THRESHOLD_IN_SECONDS in *. cbv zeta in *.
  split; [lia |].
  apply Z.mod_divide in Hmul; [| lia]. destruct Hmul as [k ->].
  apply Z.mod_divide in Hmod; [| lia]. destruct Hmod as [j Hj].
  lia.
Qed.

(** X2: the prefix [snapshot] passes to [getSnapshot] is the decimal
    rendering of the number of whole 10-second windows since the epoch, so
    two clock readings lead to the same prefix exactly when they fall in
    the same window. *)
Theorem snapshot_prefix_per_window :
  forall (s1 s2 : State),
    let t1 := fst (Date_now (world s1)) in
    let t2 := fst (Date_now (world s2)) in
    snapshot this s1
    = call (TrieGetSnapshot (toString (t1 / 10000)))
           (getSnapshot (_trie this) (toString (t1 / 10000))) (after_clock s1)
    /\ snapshot this s2
       = call (TrieGetSnapshot (toString (t2 / 10000)))
              (getSnapshot (_trie this) (toString (t2 / 10000))) (after_clock s2)
    /\ (toString (t1 / 10000) = toString (t2 / 10000) <-> t1 / 10000 = t2 / 10000).
Proof.
  intros s1 s2 t1 t2.
  split; [| split].
  - pose proof (snapshot_run this s1) as E. cbv zeta in E.
    now rewrite snapshotTimestamp_at_window in E.
  - pose proof (snapshot_run this s2) as E. cbv zeta in E.
    now rewrite snapshotTimestamp_at_window in E.
  - split; [apply toString_inj | now intros ->].
Qed.

(** *** Which events a method may cause *)

Lemma emits_ret (P : Event -> bool) {A} (a : A) : emits P (ret a).
Proof.
  intros s. split; [reflexivity |]. exists []. simpl.
  now rewrite app_nil_r.
Qed.

Lemma emits_diverge (P : Event -> bool) {A} : emits P (@diverge _ A).
Proof.
  intros s. split; [reflexivity |]. exists []. simpl.
  now rewrite app_nil_r.
Qed.

Lemma emits_get_isSyncing (P : Event -> bool) : emits P get_isSyncing.
Proof.
  intros s. split; [reflexivity |]. exists []. simpl.
  now rewrite app_nil_r.
Qed.

Lemma emits_bind (P : Event -> bool) {A B} (m : M A) (k : A -> M B) :
  emits P m -> (forall a, emits P (k a)) -> emits P (bind m k).
Proof.
  intros Hm Hk s. unfold bind. specialize (Hm s).
  destruct (m s) as [[a | e |] s1]; simpl in Hm; simpl; try exact Hm.
  destruct Hm as [F1 (evs1 & T1 & P1)].
  destruct (Hk a s1) as [F2 (evs2 & T2 & P2)].
  split; [congruence |].
  exists (evs1 ++ evs2). split.
  - rewrite T2, T1, F1, map_app. now rewrite app_assoc.
  - now apply Forall_app.
Qed.

Lemma emits_call (P : Event -> bool) {A} (e : Event) (op : Op A) :
  P e = true -> emits P (call e op).
Proof.
  intros He s. unfold call. destruct (op (world s)) as [o w]. simpl.
  split; [reflexivity |]. exists [e]. split; [reflexivity |].
  now constructor.
Qed.

Lemma emits_log (P : Event -> bool) (level : Level) (text : string)
      (data : list (string * Z)) :
  P (Log level text data) = true -> emits P (log level text data).
Proof.
  intros He s. split; [reflexivity |]. exists [Log level text data].
  split; [reflexivity |]. now constructor.
Qed.

Lemma emits_push_spread (P : Event -> bool) {A} (arr items : list A) :
  emits P (push_spread arr items).
Proof.
  unfold push_spread. destruct (N.leb _ _); [apply emits_ret |].
  intros s. split; [reflexivity |]. exists []. simpl.
  now rewrite app_nil_r.
Qed.

Ltac emits_steps :=
  repeat first
    [ apply emits_ret
    | apply emits_push_spread
    | apply emits_diverge
    | apply emits_get_isSyncing
    | apply emits_call; reflexivity
    | apply emits_log; reflexivity
    | solve [auto]
    | apply emits_bind; [| intro]
    | match goal with
      | |- emits _ (match ?x with _ => _ end) => destruct x
      | |- emits _ (let (_, _) := ?x in _) => destruct x
      end ].

Lemma filter_none {A} (f : A -> bool) (xs : list A) :
  (forall x, In x xs -> f x = false) -> filter f xs = [].
Proof.
  induction xs as [|x rest IH]; intros Hall; [reflexivity |].
  simpl. rewrite (Hall x (or_introl eq_refl)).
  apply IH. intros y Hy. apply Hall. now right.
Qed.

Lemma emits_calls (P : Event -> bool) {A} (m : M A) (s : State) :
  emits P m ->
  (forall e, P e = true -> is_rpc e = false) ->
  rpc_calls (trace (snd (m s))) = rpc_calls (trace s).
Proof.
  intros Hm Hno. destruct (Hm s) as [_ (evs & T & HP)].
  rewrite T, rpc_calls_app.
  replace (rpc_calls (map (pair (_isSyncing s)) evs)) with (@nil Event);
    [now rewrite app_nil_r |].
  unfold rpc_calls. rewrite map_map. simpl. rewrite map_id.
  symmetry. apply filter_none. rewrite Forall_forall in HP.
  intros e He. now apply Hno, HP.
Qed.

Lemma emits_storage (P : Event -> bool) {A} (m : M A) (s : State) :
  emits P m ->
  (forall e, P e = true -> is_storage e = false) ->
  storage_calls (trace (snd (m s))) = storage_calls (trace s).
Proof.
  intros Hm Hno. destruct (Hm s) as [_ (evs & T & HP)].
  unfold storage_calls. rewrite T, map_app, filter_app, map_map. simpl.
  rewrite map_id.
  replace (filter is_storage evs) with (@nil Event);
    [now rewrite app_nil_r |].
  symmetry. apply filter_none. rewrite Forall_forall in HP.
  intros e He. now apply Hno, HP.
Qed.

(** *** [shouldSync] *)

Lemma shouldSync_idle_run (theirs : list string) (s s1 : State)
      (ours : TrieSnapshot) :
  _isSyncing s = false ->
  snapshot this s = (Ret ours, s1) ->
  fst (shouldSync this theirs s)
  = Ret (negb (excludedHashesMatch (excludedHashes ours) theirs)).
Proof.
  intros Hidle Hsnap.
  unfold shouldSync, bind, get_isSyncing, log, emit, ret.
  now rewrite Hidle, Hsnap.
Qed.

Lemma excludedHashesMatch_sym (a b : list string) :
  excludedHashesMatch a b = excludedHashesMatch b a.
Proof.
  apply eq_true_iff_eq. rewrite !excludedHashesMatch_eq.
  split; intros E; now symmetry.
Qed.

(** X3: two idle hubs reach the same verdict about each other: hub A asked
    with B's excluded hashes answers as hub B asked with A's. *)
Theorem shouldSync_mutual :
  forall (hubA hubB : SyncEngine) (sA sB sA' sB' : State) (a b : TrieSnapshot),
    _isSyncing sA = false ->
    _isSyncing sB = false ->
    snapshot hubA sA = (Ret a, sA') ->
    snapshot hubB sB = (Ret b, sB') ->
    exists verdict,
      fst (shouldSync hubA (excludedHashes b) sA) = Ret verdict
      /\ fst (shouldSync hubB (excludedHashes a) sB) = Ret verdict.
Proof.
  intros hubA hubB sA sB sA' sB' a b HA HB HsnapA HsnapB.
  exists (negb (excludedHashesMatch (excludedHashes a) (excludedHashes b))).
  split.
  - unfold shouldSync, bind, get_isSyncing, log, emit, ret.
    now rewrite HA, HsnapA.
  - unfold shouldSync, bind, get_isSyncing, log, emit, ret.
    rewrite HB, HsnapB. simpl. now rewrite excludedHashesMatch_sym.
Qed.

Lemma emits_shouldSync (theirs : list string) :
  emits is_local_read (shouldSync this theirs).
Proof. unfold shouldSync, snapshot, snapshotTimestamp. emits_steps. Qed.

(** X4: [shouldSync] only looks: whatever its answer, it leaves
    [_isSyncing] as it was, and all it does is read the clock, take a
    snapshot of the local trie and log; no request goes to a peer and
    nothing is handed to storage. *)
Theorem shouldSync_only_reads :
  forall (theirs : list string) (s : State),
    let s' := snd (shouldSync this theirs s) in
    _isSyncing s' = _isSyncing s
    /\ (exists evs,
          trace s' = trace s ++ map (pair (_isSyncing s)) evs
          /\ Forall (fun e => is_local_read e = true) evs)
    /\ rpc_calls (trace s') = rpc_calls (trace s)
    /\ storage_calls (trace s') = storage_calls (trace s).
Proof.
  intros theirs s s'. subst s'.
  pose proof (emits_shouldSync theirs) as Hemits.
  split; [apply Hemits |]. split; [apply Hemits |]. split.
  - apply (emits_calls is_local_read _ s Hemits). now intros [].
  - apply (emits_storage is_local_read _ s Hemits). now intros [].
Qed.

(** *** The walk over the peer's trie *)

Lemma emits_fetch_children (P : Event -> bool) (recur : string -> M (list string))
      (ourNode : option NodeMetadata) (entries : list (string * NodeMetadata)) :
  (forall p, emits P (recur p)) ->
  forall missingHashes,
    emits P (fetch_children recur ourNode entries missingHashes).
Proof.
  intros Hrecur.
  induction entries as [|[c child] rest IH]; intros missingHashes; simpl;
    emits_steps.
Qed.

Lemma emits_fetchMissingHashesByPrefix (rpcClient : RPCClient) (fuel : nat) :
  forall prefix,
    emits is_walk_event (fetchMissingHashesByPrefix this fuel prefix rpcClient).
Proof.
  induction fuel as [|fuel IH]; intros prefix; simpl.
  - emits_steps.
  - unfold fetchMissingHashesByNode_body.
    pose proof (fun ourNode entries =>
                  emits_fetch_children
                    is_walk_event
                    (fun p => fetchMissingHashesByPrefix this fuel p rpcClient)
                    ourNode entries IH) as Hchildren.
    emits_steps.
Qed.

(** X6: the walk that looks for missing hashes touches neither storage nor
    messages: all [fetchMissingHashesByPrefix] ever does is look up local
    trie metadata, ask the peer for metadata or sync ids, and log. *)
Theorem fetchMissingHashesByPrefix_only_reads :
  forall (fuel : nat) (prefix : string) (rpcClient : RPCClient) (s : State),
    let s' := snd (fetchMissingHashesByPrefix this fuel prefix rpcClient s) in
    _isSyncing s' = _isSyncing s
    /\ (exists evs,
          trace s' = trace s ++ map (pair (_isSyncing s)) evs
          /\ Forall (fun e => is_walk_event e = true) evs)
    /\ storage_calls (trace s') = storage_calls (trace s).
Proof.
  intros fuel prefix rpcClient s s'. subst s'.
  pose proof (emits_fetchMissingHashesByPrefix rpcClient fuel prefix) as Hemits.
  split; [apply Hemits |]. split; [apply Hemits |].
  apply (emits_storage is_walk_event _ s Hemits). now intros [].
Qed.

(** X5: an error from the peer stops the walk at that prefix without
    failing it: when the peer answers the metadata request with an error,
    [fetchMissingHashesByPrefix] returns the empty list, having sent that
    one request and logged one warning. *)
Theorem fetchMissingHashesByPrefix_peer_error :
  forall (fuel : nat) (prefix : string) (rpcClient : RPCClient) (s : State)
         (ourNode : option NodeMetadata) (w1 w2 : World)
         (e : HubError EngineError),
    getTrieNodeMetadata (_trie this) prefix (world s) = (Ret ourNode, w1) ->
    getSyncMetadataByPrefix rpcClient prefix w1 = (Ret (Err e), w2) ->
    exists s',
      fetchMissingHashesByPrefix this (S fuel) prefix rpcClient s = (Ret [], s')
      /\ world s' = w2
      /\ rpc_calls (trace s')
         = rpc_calls (trace s) ++ [RpcGetSyncMetadataByPrefix prefix]
      /\ trace s'
         = trace s
           ++ map (pair (_isSyncing s))
                  [TrieGetTrieNodeMetadata prefix;
                   RpcGetSyncMetadataByPrefix prefix;
                   Log Warn ("Error fetching metadata for prefix " ++ prefix)%string []].
Proof.
  intros fuel prefix rpcClient s ourNode w1 w2 e Hours Htheirs.
  eexists. split.
  - simpl. unfold bind, call, log, emit, ret. rewrite Hours. simpl.
    rewrite Htheirs. simpl. reflexivity.
  - simpl. split; [reflexivity |]. split.
    + rewrite <- !app_assoc, rpc_calls_app. reflexivity.
    + now rewrite <- !app_assoc.
Qed.

(** *** [syncUserAndRetryMessage] *)

Lemma trace_appended (flag : bool) (t : list (bool * Event)) (evs : list Event)
      (P : list Event -> Prop) :
  P evs ->
  exists evs', t ++ map (pair flag) evs = t ++ map (pair flag) evs' /\ P evs'.
Proof. intros HP. now exists evs. Qed.

(** Case analysis on the next answer of a collaborator of recovery. *)
Ltac recovery_answer :=
  match goal with
  | |- context [getCustodyEventByUser ?c ?f ?w] =>
      destruct (getCustodyEventByUser c f w) as [[[?event | ?err] | ?exn |] ?next]
  | |- context [mergeIdRegistryEvent ?g ?ev ?src ?w] =>
      destruct (mergeIdRegistryEvent g ev src w) as [[?merged | ?exn |] ?next]
  | |- context [getAllSignerMessagesByUser ?c ?f ?w] =>
      destruct (getAllSignerMessagesByUser c f w) as [[[?signers | ?err] | ?exn |] ?next]
  | |- context [mergeMessages ?g ?ms ?src ?w] =>
      destruct (mergeMessages g ms src w) as [[?results | ?exn |] ?next]
  | |- context [mergeMessage ?g ?m ?src ?w] =>
      destruct (mergeMessage g m src w) as [[[[] | ?err] | ?exn |] ?next]
  | |- context [if forallb isErr ?rs then _ else _] =>
      destruct (forallb isErr rs)
  | _ => progress cbn [world _isSyncing trace fst snd mapErr]
  end.

(** X11: one recovery costs the peer at most two requests and storage at
    most three calls, whatever they answer, and the custody event is always
    asked for first. *)
Theorem syncUserAndRetryMessage_bounded :
  forall (message : Message) (rpcClient : RPCClient) (s : State),
    let s' := snd (syncUserAndRetryMessage this message rpcClient s) in
    exists evs,
      trace s' = trace s ++ map (pair (_isSyncing s)) evs
      /\ (hd_error evs = Some (RpcGetCustodyEventByUser (message_fid message))
          /\ (List.length (filter is_rpc evs) <= 2)%nat
          /\ (List.length (filter is_storage evs) <= 3)%nat).
Proof.
  intros message rpcClient s. cbv zeta.
  unfold syncUserAndRetryMessage, bind, call, ret.
  repeat recovery_answer;
    rewrite <- ?app_assoc; cbn [app];
    match goal with
    | |- exists evs, ?t ++ ?new = ?t ++ map (pair ?flag) evs /\ _ =>
        change new with (map (pair flag) (map snd new));
        apply trace_appended; cbn; repeat split; lia
    end.
Qed.

(** X12: recovery hides storage's own errors: when the peer and storage
    answer, the result of [syncUserAndRetryMessage] is a success or an
    error of kind [unavailable], never the refusal (status 412 or other)
    that storage gave. *)
Theorem syncUserAndRetryMessage_unavailable_or_ok :
  forall (message : Message) (rpcClient : RPCClient) (s : State),
    recovery_settles this rpcClient ->
    exists r s',
      syncUserAndRetryMessage this message rpcClient s = (Ret r, s')
      /\ match r with
         | Ok _ => True
         | Err e => error_kind (errCode e) = unavailable
         end.
Proof.
  intros message rpcClient s (Hcustody & Hsigners & Hevent & Hmerges & Hmerge).
  unfold syncUserAndRetryMessage, bind, call, ret.
  destruct (Hcustody (message_fid message) (world s)) as [[ev | e] [w1 E1]];
    rewrite E1; simpl; [| do 2 eexists; split; reflexivity].
  destruct (Hevent ev "SyncEngine" w1) as [merged [w2 E2]]. rewrite E2. simpl.
  destruct (Hsigners (message_fid message) w2) as [[ms | e] [w3 E3]];
    rewrite E3; simpl; [| do 2 eexists; split; reflexivity].
  destruct (Hmerges ms "SyncEngine" w3) as [results [w4 E4]]. rewrite E4. simpl.
  destruct (forallb isErr results); [do 2 eexists; split; reflexivity |]. simpl.
  destruct (Hmerge message "SyncEngine" w4) as [[[] | e] [w5 E5]]; rewrite E5;
    simpl; do 2 eexists; split; reflexivity || exact I.
Qed.

(** X13: whether storage accepts the custody event does not matter to
    recovery: once the peer has delivered it, the event is handed to
    storage and, whatever storage answers, refusals included, the signer
    messages are requested next. *)
Theorem syncUserAndRetryMessage_ignores_custody_merge :
  forall (message : Message) (rpcClient : RPCClient) (s : State)
         (custodyEvent : IdRegistryEvent) (w1 w2 : World)
         (merged : Result unit EngineError),
    getCustodyEventByUser rpcClient (message_fid message) (world s)
    = (Ret (Ok custodyEvent), w1) ->
    mergeIdRegistryEvent (engine this) custodyEvent "SyncEngine" w1
    = (Ret merged, w2) ->
    exists evs,
      trace (snd (syncUserAndRetryMessage this message rpcClient s))
      = trace s
        ++ map (pair (_isSyncing s))
               ([RpcGetCustodyEventByUser (message_fid message);
                 EngineMergeIdRegistryEvent custodyEvent "SyncEngine";
                 RpcGetAllSignerMessagesByUser (message_fid message)] ++ evs).
Proof.
  intros message rpcClient s custodyEvent w1 w2 merged Hcustody Hmerged.
  unfold syncUserAndRetryMessage, bind, call, ret.
  rewrite Hcustody. cbn [world _isSyncing trace]. rewrite Hmerged.
  cbn [world _isSyncing trace].
  repeat recovery_answer;
    rewrite <- ?app_assoc; cbn [app];
    match goal with
    | |- exists evs, ?t ++ _ :: _ :: _ :: ?rest = _ =>
        exists (map snd rest); reflexivity
    end.
Qed.

(** *** [fetchAndMergeMessages] *)

(** X9: what the boolean of [fetchAndMergeMessages] means.  When the peer
    and storage answer, the method returns, and it returns [true] exactly
    when the list of hashes is not empty and the peer delivered the
    messages; what became of the merges plays no part. *)
Theorem fetchAndMergeMessages_true_iff_fetched :
  forall (hashes : list string) (rpcClient : RPCClient) (s : State),
    (forall hs, settles (getMessagesByHashes rpcClient hs)) ->
    recovery_settles this rpcClient ->
    exists b s',
      fetchAndMergeMessages this hashes rpcClient s = (Ret b, s')
      /\ (b = true
          <-> hashes <> []
              /\ exists msgs w1,
                  getMessagesByHashes rpcClient (map (String.append "0x") hashes)
                                      (world s)
                  = (Ret (Ok msgs), w1)).
Proof.
  intros hashes rpcClient s Hfetches Hsettles.
  destruct hashes as [|hash hashes].
  { exists false, s. split; [reflexivity |].
    split; [discriminate | now intros [Hne _]]. }
  destruct (Hfetches (map (String.append "0x") (hash :: hashes)) (world s))
    as [[msgs | e] [w1 Hfetch]].
  - rewrite (fetchAndMergeMessages_fetched this (hash :: hashes) rpcClient s msgs w1)
      by (discriminate || exact Hfetch).
    unfold bind, log, emit, ret.
    match goal with
    | |- context [merge_loop this rpcClient msgs [] ?s1] =>
        destruct (merge_loop_returns this rpcClient msgs Hsettles [] s1)
          as [results [s2 E2]]
    end.
    rewrite E2. do 2 eexists. split; [reflexivity |].
    split; [| reflexivity]. intros _. split; [discriminate | eauto].
  - unfold fetchAndMergeMessages. cbn [List.length Nat.eqb]. cbv zeta.
    unfold bind at 1. unfold call.
    change (map (fun hash0 : string => ("0x" ++ hash0)%string) (hash :: hashes))
      with (map (String.append "0x") (hash :: hashes)).
    rewrite Hfetch. do 2 eexists. split; [reflexivity |].
    split; [discriminate |]. intros [_ (msgs & w & Hok)]. congruence.
Qed.

Lemma merge_loop_plain (rpcClient : RPCClient) (msgs : list Message) :
  (forall msg w, exists r w',
      mergeMessage (engine this) msg "SyncEngine" w = (Ret r, w')
      /\ is_unknown_user r = false) ->
  forall (mergeResults : list MergeResult) (s : State),
  exists results s',
    merge_loop this rpcClient msgs mergeResults s
    = (Ret (mergeResults ++ results), s')
    /\ List.length results = List.length msgs
    /\ _isSyncing s' = _isSyncing s
    /\ trace s'
       = trace s
         ++ map (pair (_isSyncing s))
                (map (fun msg => EngineMergeMessage msg "SyncEngine") msgs).
Proof.
  intros Hplain.
  induction msgs as [|msg rest IH]; intros mergeResults s; simpl.
  - exists [], s. unfold ret. now rewrite !app_nil_r.
  - unfold bind at 1. unfold call.
    destruct (Hplain msg (world s)) as (r & w1 & E1 & Hknown).
    rewrite E1, Hknown.
    match goal with
    | |- context [merge_loop this rpcClient rest ?acc ?s1] =>
        destruct (IH acc s1) as (results & s' & Erun & Hlen & Hflag & Htrace)
    end.
    exists (inl r :: results), s'. rewrite Erun. simpl in *.
    split; [now rewrite <- app_assoc |]. split; [now rewrite Hlen |].
    split; [exact Hflag |]. now rewrite Htrace, <- app_assoc.
Qed.

(** X10: when storage never answers 412, [fetchAndMergeMessages] on a
    delivered batch does exactly this and nothing else: one request to the
    peer, one [mergeMessage] per delivered message in the order delivered,
    and the closing log, which counts every message and at most as many
    successes. *)
Theorem fetchAndMergeMessages_plain_run :
  forall (hashes : list string) (rpcClient : RPCClient) (s : State)
         (msgs : list Message) (w1 : World),
    hashes <> [] ->
    getMessagesByHashes rpcClient (map (String.append "0x") hashes) (world s)
    = (Ret (Ok msgs), w1) ->
    (forall msg w, exists r w',
        mergeMessage (engine this) msg "SyncEngine" w = (Ret r, w')
        /\ is_unknown_user r = false) ->
    exists s' successes,
      fetchAndMergeMessages this hashes rpcClient s = (Ret true, s')
      /\ 0 <= successes <= Z.of_nat (List.length msgs)
      /\ trace s'
         = trace s
           ++ map (pair (_isSyncing s))
                  ([RpcGetMessagesByHashes (map (String.append "0x") hashes)]
                   ++ map (fun msg => EngineMergeMessage msg "SyncEngine") msgs
                   ++ [Log Info "Merged messages"
                           [("messages"%string, Z.of_nat (List.length msgs));
                            ("success"%string, successes)]]).
Proof.
  intros hashes rpcClient s msgs w1 Hne Hfetch Hplain.
  rewrite (fetchAndMergeMessages_fetched this hashes rpcClient s msgs w1 Hne Hfetch).
  unfold bind, log, emit, ret.
  match goal with
  | |- context [merge_loop this rpcClient msgs [] ?s1] =>
      destruct (merge_loop_plain rpcClient msgs Hplain [] s1)
        as (results & s2 & Erun & Hlen & Hflag & Htrace)
  end.
  rewrite Erun. simpl in *.
  exists (mkState (_isSyncing s2) (world s2)
                  (trace s2
                   ++ [(_isSyncing s2,
                        Log Info "Merged messages"
                            [("messages"%string, Z.of_nat (List.length results));
                             ("success"%string,
                              Z.of_nat (List.length
                                          (filter mergeResult_isOk results)))])])),
    (Z.of_nat (List.length (filter mergeResult_isOk results))).
  split; [reflexivity |]. split.
  - pose proof (filter_length_le mergeResult_isOk results). lia.
  - simpl. rewrite Htrace, Hflag, Hlen, map_app. simpl.
    now rewrite <- !app_assoc.
Qed.

(** *** Finishing *)

Lemma finishes_ret (b : bool) {A} (a : A) : finishes b (ret a).
Proof. now intros s. Qed.

Lemma finishes_bind (b : bool) {A B} (m : M A) (k : A -> M B) :
  finishes b m -> (forall a, finishes b (k a)) -> finishes b (bind m k).
Proof.
  intros Hm Hk s. unfold bind. specialize (Hm s).
  destruct (m s) as [[a | e |] s1]; simpl in *; try assumption. apply Hk.
Qed.

Lemma finishes_call (b : bool) {A} (e : Event) (op : Op A) :
  op_ok b op -> finishes b (call e op).
Proof.
  intros Hop s. unfold call. specialize (Hop (world s)).
  now destruct (op (world s)) as [o w].
Qed.

Lemma finishes_log (b : bool) (level : Level) (text : string)
      (data : list (string * Z)) : finishes b (log level text data).
Proof. now intros s. Qed.

Lemma finishes_set_isSyncing (b flag : bool) : finishes b (set_isSyncing flag).
Proof. now intros s. Qed.

Lemma finishes_clock (b : bool) :
  op_ok b (fun w => let (t, w') := Date_now w in (@Ret Exn Z t, w')).
Proof. intros w. now destruct (Date_now w). Qed.

Ltac finishes_steps :=
  repeat first
    [ apply finishes_ret
    | apply finishes_log
    | apply finishes_set_isSyncing
    | apply finishes_call; solve [auto | apply finishes_clock]
    | solve [auto]
    | apply finishes_bind; [| intro]
    | match goal with
      | |- finishes _ (match ?x with _ => _ end) => destruct x
      | |- finishes _ (let (_, _) := ?x in _) => destruct x
      end ].

Lemma finishes_push_spread {A} (arr items : list A) :
  finishes true (push_spread arr items).
Proof.
  intros s. unfold push_spread. now destruct (N.leb _ _).
Qed.

(** The same, for any set of allowed exceptions. *)

Lemma outcome_within_weaken {A} (allowed allowed' : Exn -> Prop)
      (o : Outcome Exn A) :
  (forall e, allowed e -> allowed' e) ->
  outcome_within allowed o -> outcome_within allowed' o.
Proof. intros Hsub. destruct o; simpl; auto. Qed.

Lemma ends_ret (allowed : Exn -> Prop) {A} (a : A) : ends_within allowed (ret a).
Proof. now intros s. Qed.

Lemma ends_bind (allowed : Exn -> Prop) {A B} (m : M A) (k : A -> M B) :
  ends_within allowed m -> (forall a, ends_within allowed (k a)) ->
  ends_within allowed (bind m k).
Proof.
  intros Hm Hk s. unfold bind. specialize (Hm s).
  destruct (m s) as [[a | e |] s1]; simpl in *; try assumption. apply Hk.
Qed.

Lemma ends_call (allowed : Exn -> Prop) {A} (e : Event) (op : Op A) :
  op_within allowed op -> ends_within allowed (call e op).
Proof.
  intros Hop s. unfold call. specialize (Hop (world s)).
  now destruct (op (world s)) as [o w].
Qed.

Lemma ends_log (allowed : Exn -> Prop) (level : Level) (text : string)
      (data : list (string * Z)) : ends_within allowed (log level text data).
Proof. now intros s. Qed.

Lemma ends_push_spread (allowed : Exn -> Prop) {A} (arr items : list A) :
  allowed RangeError -> ends_within allowed (push_spread arr items).
Proof.
  intros Hrange s. unfold push_spread. now destruct (N.leb _ _).
Qed.

Lemma ends_fetch_children (allowed : Exn -> Prop)
      (recur : string -> M (list string))
      (ourNode : option NodeMetadata) (entries : list (string * NodeMetadata)) :
  allowed RangeError ->
  (forall byte child,
      In (byte, child) entries -> ends_within allowed (recur (prefix child))) ->
  forall missingHashes,
    ends_within allowed (fetch_children recur ourNode entries missingHashes).
Proof.
  intros Hrange.
  induction entries as [|[byte child] rest IH]; intros Hrecur missingHashes; simpl.
  - apply ends_ret.
  - assert (Hrest : forall missing,
               ends_within allowed (fetch_children recur ourNode rest missing)).
    { apply IH. intros c ch Hin. apply (Hrecur c ch). now right. }
    destruct (strict_neq _ _); [| apply Hrest].
    apply ends_bind; [apply (Hrecur byte child); now left | intros more].
    apply ends_bind; [now apply ends_push_spread | intros pushed; apply Hrest].
Qed.

Lemma ends_fetchMissingHashesByPrefix (allowed : Exn -> Prop)
      (rpcClient : RPCClient) (rank : string -> nat) :
  allowed RangeError ->
  (forall p, op_within allowed (getTrieNodeMetadata (_trie this) p)) ->
  (forall p, op_within allowed (getSyncMetadataByPrefix rpcClient p)) ->
  (forall p, op_within allowed (getSyncIdsByPrefix rpcClient p)) ->
  peer_trie_descends rpcClient rank ->
  forall (fuel : nat) (prefix : string),
    (rank prefix < fuel)%nat ->
    ends_within allowed (fetchMissingHashesByPrefix this fuel prefix rpcClient).
Proof.
  intros Hrange Hours Htheirs Hids Hdescends.
  induction fuel as [|fuel IH]; intros p Hrank s; [lia |].
  simpl. unfold bind at 1. unfold call at 1.
  pose proof (Hours p (world s)) as Hop1.
  destruct (getTrieNodeMetadata (_trie this) p (world s)) as [[ourNode | e |] w1];
    simpl in Hop1; [| exact Hop1 | contradiction].
  unfold bind at 1. unfold call at 1. cbn [world].
  pose proof (Htheirs p w1) as Hop2.
  destruct (getSyncMetadataByPrefix rpcClient p w1) as [[[theirNode | e] | e |] w2]
    eqn:Hanswer; simpl in Hop2; [| exact I | exact Hop2 | contradiction].
  apply ends_bind; [| intros more; now apply ends_push_spread].
  unfold fetchMissingHashesByNode_body.
  destruct (numMessages theirNode <=? HASHES_PER_FETCH) eqn:Hfew.
  - apply ends_bind; [apply ends_call, Hids | intros [ids | err]].
    + now apply ends_push_spread.
    + apply ends_bind; [apply ends_log | intros ?; apply ends_ret].
  - destruct (children theirNode) as [entries |] eqn:Hentries;
      [| apply ends_ret].
    apply ends_fetch_children; [exact Hrange |]. intros byte child Hin.
    apply IH. apply Z.leb_gt in Hfew.
    pose proof (Hdescends p w1 theirNode w2 entries byte child
                          Hanswer Hfew Hentries Hin).
    lia.
Qed.

Lemma op_ok_within {A} (b : bool) (allowed : Exn -> Prop) (op : Op A) :
  (b = true -> forall e, allowed e) ->
  op_ok b op -> op_within allowed op.
Proof.
  intros Hall Hop w. specialize (Hop w).
  destruct (fst (op w)); simpl in *; auto.
Qed.

Lemma finishes_fetchMissingHashesByPrefix (rpcClient : RPCClient)
      (rank : string -> nat) :
  collaborators_ok true this rpcClient ->
  peer_trie_descends rpcClient rank ->
  forall (fuel : nat) (prefix : string),
    (rank prefix < fuel)%nat ->
    finishes true (fetchMissingHashesByPrefix this fuel prefix rpcClient).
Proof.
  intros (_ & _ & Hours & Htheirs & Hids & _) Hdescends fuel prefix Hrank.
  exact (ends_fetchMissingHashesByPrefix
           (fun _ => true = true) rpcClient rank eq_refl
           Hours Htheirs Hids Hdescends fuel prefix Hrank).
Qed.

(** X8: the walk ends.  If the children the peer reports rank strictly
    below their parent and no collaborator hangs, then with fuel above the
    rank of the prefix [fetchMissingHashesByPrefix] finishes: it returns or
    throws.  If moreover no collaborator throws, it either returns a list
    short enough to be the arguments of one call, or throws the
    [RangeError] of a spread call that was given more. *)
Theorem fetchMissingHashesByPrefix_terminates :
  forall (may_throw : bool) (rpcClient : RPCClient) (rank : string -> nat)
         (fuel : nat) (prefix : string) (s : State),
    collaborators_ok may_throw this rpcClient ->
    peer_trie_descends rpcClient rank ->
    (rank prefix < fuel)%nat ->
    outcome_ok true
               (fst (fetchMissingHashesByPrefix this fuel prefix rpcClient s))
    /\ (may_throw = false ->
        (exists ids s',
            fetchMissingHashesByPrefix this fuel prefix rpcClient s = (Ret ids, s')
            /\ (N.of_nat (List.length ids) <= max_arguments)%N)
        \/ (exists s',
               fetchMissingHashesByPrefix this fuel prefix rpcClient s
               = (Throw RangeError, s'))).
Proof.
  intros may_throw rpcClient rank fuel prefix s
         (_ & _ & Hours & Htheirs & Hids & _) Hdescends Hrank.
  split.
  - apply (ends_fetchMissingHashesByPrefix
             (fun _ => true = true) rpcClient rank eq_refl); try assumption;
      intros p; apply (op_ok_within may_throw); try reflexivity;
      [apply Hours | apply Htheirs | apply Hids].
  - intros ->.
    assert (Hends : ends_within (fun e => e = RangeError)
                      (fetchMissingHashesByPrefix this fuel prefix rpcClient)).
    { apply (ends_fetchMissingHashesByPrefix
               (fun e => e = RangeError) rpcClient rank eq_refl); try assumption;
        intros p; apply (op_ok_within false); try discriminate;
        [apply Hours | apply Htheirs | apply Hids]. }
    specialize (Hends s).
    destruct (fetchMissingHashesByPrefix this fuel prefix rpcClient s)
      as [[ids | e |] s'] eqn:Hrun; simpl in Hends.
    + left. exists ids, s'. split; [reflexivity |].
      exact (fetchMissingHashesByPrefix_fits this fuel prefix rpcClient s s' ids Hrun).
    + right. exists s'. now rewrite Hends.
    + contradiction.
Qed.

(** *** [performSync] *)

Lemma performSync_returns_idle (fuel : nat) (theirs : list string)
      (rpcClient : RPCClient) (s s1 : State) (u : unit) :
  performSync this fuel theirs rpcClient s = (Ret u, s1) ->
  _isSyncing s1 = false.
Proof.
  destruct u.
  unfold performSync, try_catch_finally, set_isSyncing, log, emit.
  destruct (performSync_pipeline this fuel theirs rpcClient s) as [[[] | e |] s0];
    simpl; try discriminate; now intros [= <-].
Qed.

(** X14: a finished sync round gives the guard back: after [performSync]
    has returned, [shouldSync] no longer answers [false] out of hand but
    compares the snapshot with the peer's hashes again. *)
Theorem shouldSync_after_performSync :
  forall (fuel : nat) (theirs : list string) (rpcClient : RPCClient)
         (s s1 s2 : State) (next : list string) (ours : TrieSnapshot),
    performSync this fuel theirs rpcClient s = (Ret tt, s1) ->
    snapshot this s1 = (Ret ours, s2) ->
    exists b,
      fst (shouldSync this next s1) = Ret b
      /\ (b = true <-> excludedHashes ours <> next).
Proof.
  intros fuel theirs rpcClient s s1 s2 next ours Hsync Hsnap.
  apply performSync_returns_idle in Hsync.
  exists (negb (excludedHashesMatch (excludedHashes ours) next)).
  split; [now apply (shouldSync_idle_run next s1 s2) |].
  apply excludedHashesMatch_differ.
Qed.

Lemma finishes_syncUserAndRetryMessage (b : bool) (message : Message)
      (rpcClient : RPCClient) :
  collaborators_ok b this rpcClient ->
  finishes b (syncUserAndRetryMessage this message rpcClient).
Proof.
  intros (_ & _ & _ & _ & _ & _ & Hcustody & Hsigners & Hmerge & Hevent & Hmerges).
  unfold syncUserAndRetryMessage. finishes_steps.
Qed.

Lemma finishes_merge_loop (b : bool) (rpcClient : RPCClient) (msgs : list Message) :
  collaborators_ok b this rpcClient ->
  forall mergeResults, finishes b (merge_loop this rpcClient msgs mergeResults).
Proof.
  intros Hok.
  pose proof (fun message => finishes_syncUserAndRetryMessage b message rpcClient Hok)
    as Hrecovery.
  destruct Hok as (_ & _ & _ & _ & _ & _ & _ & _ & Hmerge & _).
  induction msgs as [|msg rest IH]; intros mergeResults; simpl; finishes_steps.
Qed.

Lemma finishes_fetchAndMergeMessages (b : bool) (hashes : list string)
      (rpcClient : RPCClient) :
  collaborators_ok b this rpcClient ->
  finishes b (fetchAndMergeMessages this hashes rpcClient).
Proof.
  intros Hok.
  pose proof (finishes_merge_loop b rpcClient) as Hloop.
  pose proof Hok as (_ & _ & _ & _ & _ & Hfetch & _).
  unfold fetchAndMergeMessages. finishes_steps.
Qed.

Lemma finishes_performSync_pipeline (rpcClient : RPCClient) (rank : string -> nat)
      (fuel : nat) (theirs : list string) :
  collaborators_ok true this rpcClient ->
  peer_trie_descends rpcClient rank ->
  (forall p, (rank p < fuel)%nat) ->
  finishes true (performSync_pipeline this fuel theirs rpcClient).
Proof.
  intros Hok Hdescends Hfuel.
  pose proof (fun p => finishes_fetchMissingHashesByPrefix
                         rpcClient rank Hok Hdescends fuel p (Hfuel p))
    as Hwalk.
  pose proof (fun hashes => finishes_fetchAndMergeMessages true hashes rpcClient Hok)
    as Hmerge.
  destruct Hok as (Hsnapshot & Hdivergence & _).
  unfold performSync_pipeline, snapshot, snapshotTimestamp. finishes_steps.
Qed.

(** X15: a sync round ends.  If no collaborator hangs (they may throw or
    answer with errors) and the children the peer reports rank strictly
    below their parent, with ranks below the fuel, then [performSync]
    returns, with [_isSyncing] cleared. *)
Theorem performSync_returns :
  forall (rpcClient : RPCClient) (rank : string -> nat) (fuel : nat)
         (theirs : list string) (s : State),
    collaborators_ok true this rpcClient ->
    peer_trie_descends rpcClient rank ->
    (forall p, (rank p < fuel)%nat) ->
    exists s',
      performSync this fuel theirs rpcClient s = (Ret tt, s')
      /\ _isSyncing s' = false.
Proof.
  intros rpcClient rank fuel theirs s Hok Hdescends Hfuel.
  pose proof (finishes_performSync_pipeline rpcClient rank fuel theirs
                                            Hok Hdescends Hfuel s) as Hfin.
  unfold performSync, try_catch_finally, set_isSyncing, log, emit.
  destruct (performSync_pipeline this fuel theirs rpcClient s) as [[[] | e |] s1];
    simpl in *; [eauto | eauto | contradiction].
Qed.

(** X16: a peer that fails at the first step ends the round quietly.  When
    its answer to the metadata request for the divergence prefix is an
    error, [performSync] returns normally and logs the round as complete;
    the peer got that one request, no messages were asked for and storage
    was not called. *)
Theorem performSync_peer_error :
  forall (fuel : nat) (theirs : list string) (rpcClient : RPCClient) (s s1 : State)
         (ours : TrieSnapshot) (p : string) (ourNode : option NodeMetadata)
         (w2 w3 w4 : World) (e : HubError EngineError),
    snapshot this (mkState true (world s) (trace s)) = (Ret ours, s1) ->
    getDivergencePrefix (_trie this) (snap_prefix ours) theirs (world s1)
    = (Ret p, w2) ->
    getTrieNodeMetadata (_trie this) p w2 = (Ret ourNode, w3) ->
    getSyncMetadataByPrefix rpcClient p w3 = (Ret (Err e), w4) ->
    exists s',
      performSync this (S fuel) theirs rpcClient s = (Ret tt, s')
      /\ _isSyncing s' = false
      /\ world s' = w4
      /\ trace s'
         = trace s1
           ++ map (pair true)
                  [TrieGetDivergencePrefix (snap_prefix ours) theirs;
                   Log Info "Divergence prefix" [];
                   TrieGetTrieNodeMetadata p;
                   RpcGetSyncMetadataByPrefix p;
                   Log Warn ("Error fetching metadata for prefix " ++ p)%string [];
                   Log Info "Fetched missing hashes" [("missingCount"%string, 0)];
                   Log Info "Sync complete" []].
Proof.
  intros fuel theirs rpcClient s s1 ours p ourNode w2 w3 w4 e
         Hsnap Hdiv Hours Htheirs.
  pose proof (framed_snapshot this (mkState true (world s) (trace s))) as [Hflag _].
  rewrite Hsnap in Hflag. simpl in Hflag.
  eexists. split.
  - unfold performSync, try_catch_finally, performSync_pipeline.
    unfold bind at 1. unfold set_isSyncing at 1.
    unfold bind at 1. rewrite Hsnap.
    unfold bind at 1. unfold call at 1. rewrite Hdiv.
    simpl fetchMissingHashesByPrefix.
    unfold bind, call, log, emit, ret, set_isSyncing. simpl.
    rewrite Hours. simpl. rewrite Htheirs. simpl. reflexivity.
  - simpl. rewrite Hflag. split; [reflexivity |]. split; [reflexivity |].
    now rewrite <- !app_assoc.
Qed.

(** X7: subtrees that are already the same are skipped: when the peer's
    node holds more than [HASHES_PER_FETCH] messages and every one of its
    children has a local child at the same byte with the same hash,
    [fetchMissingHashesByNode] returns no hash and does nothing at all, not
    even one request. *)
Theorem fetchMissingHashesByNode_skips_equal_children :
  forall (fuel : nat) (theirNode : NodeMetadata) (ourNode : option NodeMetadata)
         (rpcClient : RPCClient) (s : State) (entries : list (string * NodeMetadata)),
    HASHES_PER_FETCH < numMessages theirNode ->
    children theirNode = Some entries ->
    (forall byte theirChild,
        In (byte, theirChild) entries ->
        exists ourChild,
          our_child ourNode byte = Some ourChild
          /\ hash ourChild = hash theirChild) ->
    fetchMissingHashesByNode this fuel theirNode ourNode rpcClient s = (Ret [], s).
Proof.
  intros fuel theirNode ourNode rpcClient s entries Hmany Hentries Hsame.
  unfold fetchMissingHashesByNode, fetchMissingHashesByNode_body.
  apply Z.leb_gt in Hmany. rewrite Hmany, Hentries.
  rewrite fetch_children_spec;
    [| intros p s0 ids s' Hrun;
       exact (fetchMissingHashesByPrefix_fits this fuel p rpcClient s0 s' ids Hrun)].
  rewrite filter_none; [reflexivity |].
  intros [byte theirChild] Hin.
  destruct (Hsame byte theirChild Hin) as (ourChild & Hchild & Hhash).
  unfold missing_or_differs_spec. simpl. rewrite Hchild, Hhash.
  now rewrite String.eqb_refl.
Qed.

End MoreEngineProperties.

(** ** The gossip codec *)

Section MoreGossipProperties.
Context `{GossipHelpers}.

(** X17: what [decodeMessage] returns is decided by the JSON parser and the
    type guard alone: it is [ok(m)] exactly when the bytes parse to [m] and
    the guard accepts [m], and an error exactly when the parser fails, whose
    error is passed on unchanged, or the parsed value is refused, which
    gives [bad_request.parse_failure]. *)
Theorem decodeMessage_cases :
  forall (data : list Byte.byte),
    (forall m,
        decodeMessage data = Ok m
        <-> safeJsonParse (TextDecoder_decode data) = Ok m
            /\ isGossipMessage m = true)
    /\ (forall e,
          decodeMessage data = Err e
          <-> safeJsonParse (TextDecoder_decode data) = Err e
              \/ exists m,
                  safeJsonParse (TextDecoder_decode data) = Ok m
                  /\ isGossipMessage m = false
                  /\ e = invalid_gossip_message).
Proof.
  intros data. unfold decodeMessage.
  destruct (safeJsonParse (TextDecoder_decode data)) as [parsed | failure]; simpl.
  - destruct (isGossipMessage parsed) eqn:Hguard.
    + rewrite (is_object_truthy parsed (isGossipMessage_object parsed Hguard)).
      simpl. split.
      * intros m. split; [intros [= <-]; now split | now intros [[= <-] _]].
      * intros e. split; [discriminate |].
        intros [? | (m & [= <-] & Hno & _)]; congruence.
    + rewrite orb_true_r. split.
      * intros m. split; [discriminate | intros [[= <-] Hyes]; congruence].
      * intros e. split.
        -- intros [= <-]. right. now exists parsed.
        -- intros [? | (m & _ & _ & ->)]; [discriminate | reflexivity].
  - split.
    + intros m. split; [discriminate | now intros [? _]].
    + intros e. split; [intros [= <-]; now left |].
      intros [[= <-] | (m & ? & _)]; [reflexivity | discriminate].
Qed.

(** X18: what [encodeMessage] returns is decided by the type guard and the
    JSON serialiser alone: it is [ok(bytes)] exactly when the guard accepts
    the message and [bytes] is the UTF-8 encoding of its JSON text; a
    refused message gives [bad_request.parse_failure] without being
    serialised, and a failure of the serialiser is passed on unchanged. *)
Theorem encodeMessage_cases :
  forall (message : JsValue),
    (forall bytes,
        encodeMessage message = Ok bytes
        <-> isGossipMessage message = true
            /\ exists json,
                safeJsonStringify message = Ok json
                /\ bytes = TextEncoder_encode json)
    /\ (forall e,
          encodeMessage message = Err e
          <-> (isGossipMessage message = false /\ e = invalid_gossip_message)
              \/ (isGossipMessage message = true
                  /\ safeJsonStringify message = Err e)).
Proof.
  intros message. unfold encodeMessage.
  destruct (isGossipMessage message); simpl.
  - destruct (safeJsonStringify message) as [json | failure]; split.
    + intros bytes. split.
      * intros [= <-]. split; [reflexivity | now exists json].
      * now intros [_ (json' & [= <-] & ->)].
    + intros e. split; [discriminate |].
      intros [[? _] | [_ ?]]; discriminate.
    + intros bytes. split; [discriminate |].
      intros [_ (json & ? & _)]. discriminate.
    + intros e. split; [intros [= <-]; now right |].
      intros [[? _] | [_ [= <-]]]; [discriminate | reflexivity].
  - split.
    + intros bytes. split; [discriminate | now intros [? _]].
    + intros e. split; [intros [= <-]; now left |].
      intros [[_ ->] | [? _]]; [reflexivity | discriminate].
Qed.

End MoreGossipProperties.

(** ** Filling the trie *)

Lemma next_count (c : Z) :
  0 <= c ->
  if (c + 1) mod 10000 =? 0
  then (c + 1) / 10000 = c / 10000 + 1 /\ c + 1 = 10000 * (c / 10000 + 1)
  else (c + 1) / 10000 = c / 10000.
Proof.
  intros Hc.
  pose proof (Z.div_mod c 10000 ltac:(lia)) as Ec.
  pose proof (Z.div_mod (c + 1) 10000 ltac:(lia)) as Es.
  pose proof (Z.mod_pos_bound c 10000 ltac:(lia)) as Bc.
  pose proof (Z.mod_pos_bound (c + 1) 10000 ltac:(lia)) as Bs.
  destruct (Z.eqb_spec ((c + 1) mod 10000) 0); lia.
Qed.

Section ReplayProperties.
Context `{HubTypes}.
Variable writer : TrieWriter.
Variable store : MessageStore.

Lemma addMessage_run (message : Message) (s : State) :
  writer_settles writer ->
  exists w, addMessage writer message s
            = (Ret tt, mkState (_isSyncing s) w (trace s)).
Proof.
  intros [Hid Hinsert]. unfold addMessage, bind, evaluate, perform, ret.
  destruct (Hid message) as [id ->].
  destruct (Hinsert id (world s)) as (added & w & ->). now exists w.
Qed.

Lemma initialize_each_run (messages : list Message) :
  writer_settles writer ->
  forall (c : Z) (s : State),
    0 <= c ->
    exists w,
      initialize_each writer messages c s
      = (Ret (c + Z.of_nat (List.length messages)),
         mkState (_isSyncing s) w
                 (trace s
                  ++ map (pair (_isSyncing s))
                         (map progress_log
                              (seq (S (Z.to_nat (c / 10000)))
                                   (Z.to_nat ((c + Z.of_nat (List.length messages))
                                              / 10000 - c / 10000)))))).
Proof.
  intros Hwriter.
  induction messages as [|message rest IH]; intros c s Hc.
  - exists (world s). simpl. rewrite Z.add_0_r, Z.sub_diag. simpl.
    rewrite app_nil_r. unfold ret. now destruct s.
  - cbn [initialize_each]. unfold bind at 1.
    destruct (addMessage_run message s Hwriter) as [w1 ->].
    replace (c + Z.of_nat (List.length (message :: rest)))
      with (c + 1 + Z.of_nat (List.length rest))
      by (cbn [List.length]; lia).
    pose proof (next_count c Hc) as Hnext.
    pose proof (Z.div_pos c 10000 Hc ltac:(lia)) as Hq.
    assert (Hmono : (c + 1) / 10000 <= (c + 1 + Z.of_nat (List.length rest)) / 10000)
      by (apply Z.div_le_mono; lia).
    destruct ((c + 1) mod 10000 =? 0).
    + destruct Hnext as [Hdiv Hcount].
      unfold bind at 1. unfold log, emit. cbn [_isSyncing world trace].
      match goal with
      | |- context [initialize_each writer rest _ ?s1] =>
          destruct (IH (c + 1) s1 ltac:(lia)) as [w2 ->]
      end.
      exists w2. cbn [_isSyncing world trace]. f_equal. f_equal.
      rewrite <- app_assoc. f_equal. rewrite Hdiv in *.
      replace (Z.to_nat ((c + 1 + Z.of_nat (List.length rest)) / 10000 - c / 10000))
        with (S (Z.to_nat ((c + 1 + Z.of_nat (List.length rest)) / 10000
                           - (c / 10000 + 1)))) by lia.
      replace (Z.to_nat (c / 10000 + 1)) with (S (Z.to_nat (c / 10000))) by lia.
      cbn [seq map app]. unfold progress_log at 2.
      replace (10000 * Z.of_nat (S (Z.to_nat (c / 10000)))) with (c + 1) by lia.
      reflexivity.
    + unfold bind at 1. unfold ret at 1.
      match goal with
      | |- context [initialize_each writer rest _ ?s1] =>
          destruct (IH (c + 1) s1 ltac:(lia)) as [w2 ->]
      end.
      exists w2. cbn [_isSyncing world trace]. now rewrite Hnext.
Qed.

(** X19: [initialize] adds every stored message to the trie, reports
    progress once per full 10,000 messages, at 10,000, 20,000 and so on,
    and ends by reporting the number of messages it was given. *)
Theorem initialize_reports_progress :
  forall (s : State) (messages : list Message) (w1 : World),
    forEachMessage store (world s) = (Ret messages, w1) ->
    writer_settles writer ->
    exists s',
      initialize writer store s = (Ret tt, s')
      /\ _isSyncing s' = _isSyncing s
      /\ trace s'
         = trace s
           ++ map (pair (_isSyncing s))
                  (map progress_log
                       (seq 1 (Z.to_nat (Z.of_nat (List.length messages) / 10000)))
                   ++ [Log Info "Sync engine initialized"
                           [("processedMessages"%string,
                             Z.of_nat (List.length messages))]]).
Proof.
  intros s messages w1 Hstored Hwriter.
  unfold initialize, bind at 1. unfold perform. rewrite Hstored.
  unfold bind, log, emit.
  destruct (initialize_each_run messages Hwriter 0
                                (mkState (_isSyncing s) w1 (trace s))
                                ltac:(lia))
    as [w2 Hrun].
  rewrite Hrun.
  eexists. split; [reflexivity |]. split; [reflexivity |].
  cbn [_isSyncing world trace]. rewrite Z.add_0_l.
  replace (0 / 10000) with 0 by reflexivity.
  change (Z.to_nat 0) with 0%nat.
  now rewrite Z.sub_0_r, map_app, <- app_assoc.
Qed.

End ReplayProperties.

(** ** The sync RPC server *)

Section ServerProperties.
Context `{ServerTypes}.

(** X20: each of the six handlers of the sync service answers a request
    whose engine query returns with exactly one callback, carrying either
    the messages as a response or the error as a service error, never both;
    a missing fid is queried as the empty byte array; and when the query
    throws or hangs, the callback is not invoked at all. *)
Theorem syncImplementation_replies_once :
  forall (engine : FlatbuffersEngine) (method : SyncMethod)
         (fidArray : option (list Byte.byte)) (s : ServerState),
    let answer := query_of engine method (nullish fidArray []) (server_world s) in
    let run := handler_of (syncImplementation engine) method fidArray s in
    server_world (snd run) = snd answer
    /\ exists replies,
        callbacks (snd run) = callbacks s ++ replies
        /\ forallb one_sided replies = true
        /\ match fst answer with
           | Ret (Ok messages) =>
               fst run = Ret tt
               /\ replies = [Callback None (Some (toMessagesResponse messages))]
           | Ret (Err err) =>
               fst run = Ret tt
               /\ replies = [Callback (Some (toServiceError err)) None]
           | Throw e => fst run = Throw e /\ replies = []
           | Diverge => fst run = Diverge /\ replies = []
           end.
Proof.
  intros engine method fidArray s answer run. subst answer run.
  destruct method; simpl; unfold await_and_match, callback;
    match goal with
    | |- context [?query (nullish fidArray []) (server_world s)] =>
        destruct (query (nullish fidArray []) (server_world s))
          as [[[messages | err] | e |] w]
    end; simpl; (split; [reflexivity |]);
    eexists; (split; [| split; [| split; reflexivity]]);
    try reflexivity; now rewrite ?app_nil_r.
Qed.

End ServerProperties.

(** ** The properties at work on the concrete collaborators *)

Import Scenario.

(** Every operation of the concrete collaborators returns. *)
Ltac all_settle := repeat split; intros; intros w; do 2 eexists; reflexivity.

Lemma fetchMissingHashesByNode_cases_witness :
  (numMessages shallow_node <= HASHES_PER_FETCH
   /\ exists o s',
       fetchMissingHashesByNode hub 3 shallow_node None shallow_peer idle = (o, s')
       /\ rpc_calls (trace s')
          = rpc_calls (trace idle) ++ [RpcGetSyncIdsByPrefix (prefix shallow_node)]
       /\ world s'
          = snd (getSyncIdsByPrefix shallow_peer (prefix shallow_node) (world idle))
       /\ (forall ids,
             fst (getSyncIdsByPrefix shallow_peer (prefix shallow_node) (world idle))
             = Ret (Ok ids) ->
             (N.of_nat (List.length ids) <= max_arguments)%N ->
             o = Ret ids)
       /\ (forall e,
             fst (getSyncIdsByPrefix shallow_peer (prefix shallow_node) (world idle))
             = Ret (Err e) -> o = Ret []))
  /\ (HASHES_PER_FETCH < numMessages deep_node
      /\ fetchMissingHashesByNode hub 3 deep_node (Some local_node) deep_peer idle
         = (found <- mapM (fun entry =>
                             fetchMissingHashesByPrefix hub 3 (prefix (snd entry))
                                                        deep_peer)
                          (children_to_fetch_spec (Some local_node) deep_node);;
            ret (List.concat found)) idle).
Proof.
  split; split.
  - unfold HASHES_PER_FETCH. simpl. lia.
  - apply (fetchMissingHashesByNode_cases hub 3 shallow_node None shallow_peer idle).
    unfold HASHES_PER_FETCH. simpl. lia.
  - unfold HASHES_PER_FETCH. simpl. lia.
  - apply (fetchMissingHashesByNode_cases hub 3 deep_node (Some local_node)
                                          deep_peer idle).
    unfold HASHES_PER_FETCH. simpl. lia.
Defined.

(** The node is said to hold three messages, the peer answers with one id
    more than a call takes, and the method throws. *)
Lemma fetchMissingHashesByNode_long_answer_throws_witness :
  numMessages shallow_node <= HASHES_PER_FETCH
  /\ getSyncIdsByPrefix flooding_peer (prefix shallow_node) (world idle)
     = (Ret (Ok long_answer), [])
  /\ (max_arguments < N.of_nat (List.length long_answer))%N
  /\ fetchMissingHashesByNode hub 1 shallow_node None flooding_peer idle
     = (Throw RangeError,
        @mkState types false [] [(false, RpcGetSyncIdsByPrefix "00000010")]).
Proof.
  assert (Hfew : numMessages shallow_node <= HASHES_PER_FETCH)
    by (unfold HASHES_PER_FETCH; simpl; lia).
  assert (Hlong : (max_arguments < N.of_nat (List.length long_answer))%N).
  { unfold long_answer. rewrite repeat_length. lia. }
  split; [exact Hfew |]. split; [reflexivity |]. split; [exact Hlong |].
  exact (fetchMissingHashesByNode_long_answer_throws
           hub 1 shallow_node None flooding_peer idle long_answer []
           Hfew eq_refl Hlong).
Defined.

Lemma shouldSync_iff_excluded_hashes_differ_witness :
  (_isSyncing busy = true
   /\ shouldSync hub ["e0"] busy
      = (Ret false,
         mkState true (world busy)
                 (trace busy ++ [(true, Log Debug "shouldSync: already syncing" [])])))
  /\ (_isSyncing idle = false
      /\ snapshot hub idle
         = (Ret (mkTrieSnapshot "170000012" 60 ["e0"; "e1"]),
            @mkState types false [] [(false, DateNow); (false, TrieGetSnapshot "170000012")])
      /\ exists b s2,
          shouldSync hub ["e0"] idle = (Ret b, s2)
          /\ world s2 = []
          /\ (b = true <-> ["e0"; "e1"] <> ["e0"])).
Proof.
  split.
  - split; [reflexivity |].
    apply (shouldSync_iff_excluded_hashes_differ hub ["e0"] busy). reflexivity.
  - split; [reflexivity |]. split; [reflexivity |].
    apply (proj2 (shouldSync_iff_excluded_hashes_differ hub ["e0"] idle) eq_refl
                 (mkTrieSnapshot "170000012" 60 ["e0"; "e1"])
                 (@mkState types false [] [(false, DateNow);
                                    (false, TrieGetSnapshot "170000012")])).
    reflexivity.
Defined.

Lemma performSync_guards_and_never_throws_witness :
  performSync_pipeline hub 5 ["e0"; "x"] rejecting_peer idle
  = (Throw "connection reset",
     @mkState types true []
             [(true, DateNow); (true, TrieGetSnapshot "170000012");
              (true, TrieGetDivergencePrefix "170000012" ["e0"; "x"]);
              (true, Log Info "Divergence prefix" []);
              (true, TrieGetTrieNodeMetadata "00000010");
              (true, RpcGetSyncMetadataByPrefix "00000010")])
  /\ performSync hub 5 ["e0"; "x"] rejecting_peer idle
     = (Ret tt,
        @mkState types false []
             [(true, DateNow); (true, TrieGetSnapshot "170000012");
              (true, TrieGetDivergencePrefix "170000012" ["e0"; "x"]);
              (true, Log Info "Divergence prefix" []);
              (true, TrieGetTrieNodeMetadata "00000010");
              (true, RpcGetSyncMetadataByPrefix "00000010");
              (true, Log Warn "Error performing sync" [])]).
Proof.
  split; [reflexivity |].
  destruct (performSync_guards_and_never_throws hub 5 ["e0"; "x"] rejecting_peer idle)
    as (o & s' & evs & Hrun & _ & _ & Hthrown).
  destruct (Hthrown _ _ eq_refl) as [-> ->]. exact Hrun.
Defined.

Lemma fetchAndMergeMessages_sequential_witness :
  ["a"; "b"] <> []
  /\ fetchAndMergeMessages hub ["a"; "b"] shallow_peer idle
     = fetchAndMergeMessages_spec hub ["a"; "b"] shallow_peer idle.
Proof.
  split; [discriminate |].
  apply (fetchAndMergeMessages_sequential hub ["a"; "b"] shallow_peer idle).
  discriminate.
Defined.


Lemma fetchAndMergeMessages_true_despite_failed_merges_witness :
  (["a"; "b"] <> []
   /\ getMessagesByHashes forgetful_peer (map (String.append "0x") ["a"; "b"])
                          (world idle)
      = (Ret (Ok [(7%nat, "0xa"); (7%nat, "0xb")]), [])
   /\ recovery_settles broken_hub forgetful_peer
   /\ (forall b s',
         fetchAndMergeMessages broken_hub ["a"; "b"] forgetful_peer idle = (Ret b, s')
         -> b = true)
   /\ exists s',
       fetchAndMergeMessages broken_hub ["a"; "b"] forgetful_peer idle
       = (Ret true, s'))
  /\ (getMessagesByHashes failing_peer (map (String.append "0x") ["a"; "b"])
                          (world idle)
      = (Ret (Err unavailable_peer), [])
      /\ exists s',
          fetchAndMergeMessages hub ["a"; "b"] failing_peer idle = (Ret false, s')
          /\ world s' = [])
  /\ fetchAndMergeMessages hub [] failing_peer idle = (Ret false, idle).
Proof.
  split; [| split].
  - split; [discriminate |]. split; [reflexivity |]. split; [all_settle |].
    destruct (proj2 (fetchAndMergeMessages_true_despite_failed_merges
                       broken_hub ["a"; "b"] forgetful_peer idle)
                    ltac:(discriminate)
                    (Ret (Ok [(7%nat, "0xa"); (7%nat, "0xb")])) [] eq_refl)
      as [Hnever Htrue].
    split; [exact Hnever | apply Htrue; all_settle].
  - split; [reflexivity |].
    exact (proj2 (fetchAndMergeMessages_true_despite_failed_merges
                    hub ["a"; "b"] failing_peer idle)
                 ltac:(discriminate)
                 (Ret (Err unavailable_peer)) [] eq_refl).
  - exact (proj1 (fetchAndMergeMessages_true_despite_failed_merges
                    hub [] failing_peer idle) eq_refl).
Defined.

Import GossipScenario.

Lemma codec_refuses_invalid_envelopes_witness :
  isGossipMessage a_number = false
  /\ encodeMessage a_number = Err invalid_gossip_message
  /\ (forall data,
        safeJsonParse (TextDecoder_decode data) = Ok a_number ->
        decodeMessage data = Err invalid_gossip_message)
  /\ errCode (invalid_gossip_message) = "bad_request.parse_failure"
  /\ error_kind (errCode (invalid_gossip_message)) = bad_input.
Proof.
  split; [reflexivity |].
  apply (@codec_refuses_invalid_envelopes platform helpers a_number). reflexivity.
Defined.

Lemma decode_encode_round_trip_witness :
  isGossipMessage peer1_contact = true
  /\ safeJsonStringify peer1_contact = Ok peer1_contact_json
  /\ TextDecoder_decode (TextEncoder_encode peer1_contact_json)
     = contact_info_json "peer1" 3
  /\ safeJsonParse peer1_contact_json = Ok peer1_contact
  /\ exists data,
      encodeMessage peer1_contact = Ok data
      /\ decodeMessage data = Ok peer1_contact.
Proof.
  split; [reflexivity |]. split; [reflexivity |].
  split; [vm_compute; reflexivity |]. split; [vm_compute; reflexivity |].
  apply (@decode_encode_round_trip platform helpers peer1_contact
 peer1_contact_json);
    vm_compute; reflexivity.
Defined.

(** ** The further properties at work *)

Import MoreScenario.

Lemma snapshotTimestamp_greatest_witness :
  1700000120 mod SYNC_THRESHOLD_IN_SECONDS = 0
  /\ 1000 * 1700000120 <= fst (Date_now (world idle))
  /\ exists ts,
      fst (snapshotTimestamp idle) = Ret ts
      /\ ts mod SYNC_THRESHOLD_IN_SECONDS = 0
      /\ 1000 * ts <= fst (Date_now (world idle))
      /\ 1700000120 <= ts.
Proof.
  split; [reflexivity |]. split; [vm_compute; discriminate |].
  apply (snapshotTimestamp_greatest idle 1700000120);
    [reflexivity | vm_compute; discriminate].
Defined.

Lemma shouldSync_mutual_witness :
  exists verdict,
    fst (shouldSync hub ["e0"; "e1"] idle) = Ret verdict
    /\ fst (shouldSync broken_hub ["e0"; "e1"] idle) = Ret verdict.
Proof.
  apply (shouldSync_mutual
           hub broken_hub idle idle
           (@mkState types false [] [(false, DateNow);
                                     (false, TrieGetSnapshot "170000012")])
           (@mkState types false [] [(false, DateNow);
                                     (false, TrieGetSnapshot "170000012")])
           (mkTrieSnapshot "170000012" 60 ["e0"; "e1"])
           (mkTrieSnapshot "170000012" 60 ["e0"; "e1"]));
    reflexivity.
Defined.

Lemma fetchMissingHashesByPrefix_peer_error_witness :
  exists s',
    fetchMissingHashesByPrefix hub 1 "00000010" failing_peer idle = (Ret [], s')
    /\ world s' = []
    /\ rpc_calls (trace s')
       = rpc_calls (trace idle) ++ [RpcGetSyncMetadataByPrefix "00000010"]
    /\ trace s'
       = trace idle
         ++ map (pair (_isSyncing idle))
                [TrieGetTrieNodeMetadata "00000010";
                 RpcGetSyncMetadataByPrefix "00000010";
                 Log Warn ("Error fetching metadata for prefix " ++ "00000010")%string []].
Proof.
  apply (fetchMissingHashesByPrefix_peer_error
           hub 0 "00000010" failing_peer idle (Some local_node) [] []
           unavailable_peer); reflexivity.
Defined.

Lemma fetchMissingHashesByNode_skips_equal_children_witness :
  fetchMissingHashesByNode hub 0 same_node (Some local_node) deep_peer idle
  = (Ret [], idle).
Proof.
  apply (fetchMissingHashesByNode_skips_equal_children
           hub 0 same_node (Some local_node) deep_peer idle
           [("0", mkNodeMetadata "000000100" 60 "hash_X" None)]).
  - unfold HASHES_PER_FETCH. simpl. lia.
  - reflexivity.
  - intros byte theirChild [[= <- <-] | []].
    exists (mkNodeMetadata "000000100" 60 "hash_X" None). now split.
Defined.

(** The peer of scenario S5 describes a trie of depth one. *)
Ltac deep_peer_descends :=
  intros p w theirNode w' entries byte child Hanswer Hmany Hentries Hin;
  unfold deep_rank; simpl in Hanswer; injection Hanswer as <- <-;
  destruct (String.eqb p "00000010");
  [ injection Hentries as <-;
    destruct Hin as [[= <- <-] | [[= <- <-] | []]]; vm_compute; repeat constructor
  | discriminate Hentries ].

Ltac all_ok := repeat split; intros; intros w; exact I.

Lemma fetchMissingHashesByPrefix_terminates_witness :
  collaborators_ok false hub deep_peer
  /\ peer_trie_descends deep_peer deep_rank
  /\ (deep_rank "00000010" < 2)%nat
  /\ outcome_ok true (fst (fetchMissingHashesByPrefix hub 2 "00000010" deep_peer idle))
  /\ ((exists ids s',
         fetchMissingHashesByPrefix hub 2 "00000010" deep_peer idle = (Ret ids, s')
         /\ (N.of_nat (List.length ids) <= max_arguments)%N)
      \/ (exists s',
            fetchMissingHashesByPrefix hub 2 "00000010" deep_peer idle
            = (Throw RangeError, s'))).
Proof.
  split; [all_ok |]. split; [deep_peer_descends |].
  split; [vm_compute; repeat constructor |].
  destruct (fetchMissingHashesByPrefix_terminates
              hub false deep_peer deep_rank 2 "00000010" idle)
    as [Hends Hreturns];
    [all_ok | deep_peer_descends | vm_compute; repeat constructor |].
  split; [exact Hends | now apply Hreturns].
Defined.

Lemma performSync_returns_witness :
  collaborators_ok true hub deep_peer
  /\ peer_trie_descends deep_peer deep_rank
  /\ (forall p, (deep_rank p < 2)%nat)
  /\ exists s',
      performSync hub 2 ["e0"; "x"] deep_peer idle = (Ret tt, s')
      /\ _isSyncing s' = false.
Proof.
  assert (Hrank : forall p, (deep_rank p < 2)%nat).
  { intros p. unfold deep_rank. destruct (String.eqb p "00000010"); lia. }
  split; [all_ok |]. split; [deep_peer_descends |]. split; [exact Hrank |].
  apply (performSync_returns hub deep_peer deep_rank 2 ["e0"; "x"] idle);
    [all_ok | deep_peer_descends | exact Hrank].
Defined.

Lemma fetchAndMergeMessages_true_iff_fetched_witness :
  (forall hs, settles (getMessagesByHashes forgetful_peer hs))
  /\ recovery_settles broken_hub forgetful_peer
  /\ exists b s',
      fetchAndMergeMessages broken_hub ["a"; "b"] forgetful_peer idle = (Ret b, s')
      /\ (b = true
          <-> ["a"; "b"] <> []
              /\ exists msgs w1,
                  getMessagesByHashes forgetful_peer
                                      (map (String.append "0x") ["a"; "b"])
                                      (world idle)
                  = (Ret (Ok msgs), w1)).
Proof.
  split; [all_settle |]. split; [all_settle |].
  apply (fetchAndMergeMessages_true_iff_fetched
           broken_hub ["a"; "b"] forgetful_peer idle); all_settle.
Defined.

Lemma fetchAndMergeMessages_plain_run_witness :
  exists s' successes,
    fetchAndMergeMessages open_hub ["a"; "b"] shallow_peer idle = (Ret true, s')
    /\ 0 <= successes <= 2
    /\ trace s'
       = trace idle
         ++ map (pair false)
                ([RpcGetMessagesByHashes ["0xa"; "0xb"]]
                 ++ [EngineMergeMessage (7%nat, "0xa") "SyncEngine";
                     EngineMergeMessage (7%nat, "0xb") "SyncEngine"]
                 ++ [Log Info "Merged messages"
                         [("messages"%string, 2); ("success"%string, successes)]]).
Proof.
  apply (fetchAndMergeMessages_plain_run
           open_hub ["a"; "b"] shallow_peer idle
           [(7%nat, "0xa"); (7%nat, "0xb")] []).
  - discriminate.
  - reflexivity.
  - intros msg w. exists (Ok tt), w. now split.
Defined.

Lemma syncUserAndRetryMessage_unavailable_or_ok_witness :
  recovery_settles broken_hub shallow_peer
  /\ exists r s',
      syncUserAndRetryMessage broken_hub (7%nat, "cast") shallow_peer idle
      = (Ret r, s')
      /\ match r with
         | Ok _ => True
         | Err e => error_kind (errCode e) = unavailable
         end.
Proof.
  split; [all_settle |].
  apply (syncUserAndRetryMessage_unavailable_or_ok
           broken_hub (7%nat, "cast") shallow_peer idle).
  all_settle.
Defined.

Lemma syncUserAndRetryMessage_ignores_custody_merge_witness :
  mergeIdRegistryEvent (engine broken_hub) 7%nat "SyncEngine" [] = (Ret (Err 500), [])
  /\ exists evs,
      trace (snd (syncUserAndRetryMessage broken_hub (7%nat, "cast")
                                          shallow_peer idle))
      = trace idle
        ++ map (pair false)
               ([RpcGetCustodyEventByUser 7%nat;
                 EngineMergeIdRegistryEvent 7%nat "SyncEngine";
                 RpcGetAllSignerMessagesByUser 7%nat] ++ evs).
Proof.
  split; [reflexivity |].
  apply (syncUserAndRetryMessage_ignores_custody_merge
           broken_hub (7%nat, "cast") shallow_peer idle 7%nat [] [] (Err 500));
    reflexivity.
Defined.

Lemma performSync_peer_error_witness :
  exists s',
    performSync hub 1 ["e0"; "x"] failing_peer idle = (Ret tt, s')
    /\ _isSyncing s' = false
    /\ world s' = []
    /\ trace s'
       = [(true, DateNow); (true, TrieGetSnapshot "170000012")]
         ++ map (pair true)
                [TrieGetDivergencePrefix "170000012" ["e0"; "x"];
                 Log Info "Divergence prefix" [];
                 TrieGetTrieNodeMetadata "00000010";
                 RpcGetSyncMetadataByPrefix "00000010";
                 Log Warn ("Error fetching metadata for prefix " ++ "00000010")%string [];
                 Log Info "Fetched missing hashes" [("missingCount"%string, 0)];
                 Log Info "Sync complete" []].
Proof.
  apply (performSync_peer_error
           hub 0 ["e0"; "x"] failing_peer idle
           (@mkState types true [] [(true, DateNow);
                                    (true, TrieGetSnapshot "170000012")])
           (mkTrieSnapshot "170000012" 60 ["e0"; "e1"])
           "00000010" (Some local_node) [] [] [] unavailable_peer);
    reflexivity.
Defined.

Lemma shouldSync_after_performSync_witness :
  exists s1 s2 ours,
    performSync hub 1 ["e0"; "x"] failing_peer idle = (Ret tt, s1)
    /\ snapshot hub s1 = (Ret ours, s2)
    /\ exists b,
        fst (shouldSync hub ["e0"] s1) = Ret b
        /\ (b = true <-> excludedHashes ours <> ["e0"]).
Proof.
  do 3 eexists. split; [vm_compute; reflexivity |].
  split; [vm_compute; reflexivity |].
  eapply (shouldSync_after_performSync hub 1 ["e0"; "x"] failing_peer idle);
    vm_compute; reflexivity.
Defined.

Lemma initialize_reports_progress_witness :
  forEachMessage store (world idle)
  = (Ret [(1%nat, "ab"); (1%nat, "cd"); (2%nat, "ef")], [])
  /\ writer_settles writer
  /\ exists s',
      initialize writer store idle = (Ret tt, s')
      /\ _isSyncing s' = false
      /\ trace s'
         = trace idle
           ++ map (pair false)
                  (map progress_log (seq 1 (Z.to_nat (3 / 10000)))
                   ++ [Log Info "Sync engine initialized"
                           [("processedMessages"%string, 3)]]).
Proof.
  assert (Hwriter : writer_settles writer).
  { split; [intros m; eexists; reflexivity
           | intros id w; do 2 eexists; reflexivity]. }
  split; [reflexivity |]. split; [exact Hwriter |].
  apply (initialize_reports_progress
           writer store idle [(1%nat, "ab"); (1%nat, "cd"); (2%nat, "ef")] []);
    [reflexivity | exact Hwriter].
Defined.

Import GossipScenario.

Lemma decodeMessage_cases_witness :
  decodeMessage (TextEncoder_encode peer1_contact_json) = Ok peer1_contact
  /\ decodeMessage (TextEncoder_encode "42") = Err invalid_gossip_message.
Proof.
  split.
  - apply (proj1 (@decodeMessage_cases platform helpers
                    (TextEncoder_encode peer1_contact_json))).
    split; vm_compute; reflexivity.
  - apply (proj2 (@decodeMessage_cases platform helpers (TextEncoder_encode "42"))).
    right. exists a_number. repeat split; vm_compute; reflexivity.
Defined.

Lemma encodeMessage_cases_witness :
  encodeMessage peer1_contact = Ok (TextEncoder_encode peer1_contact_json)
  /\ encodeMessage a_number = Err invalid_gossip_message.
Proof.
  split.
  - apply (proj1 (@encodeMessage_cases platform helpers peer1_contact)).
    split; [reflexivity |]. exists peer1_contact_json.
    split; vm_compute; reflexivity.
  - apply (proj2 (@encodeMessage_cases platform helpers a_number)).
    left. split; reflexivity.
Defined.
